(** * usbtiny.c: driver for the "usbtiny" programmer

    A shallow embedding of [src/usbtiny.c] and the properties of its
    timing controller, command relay, paged memory engine and byte cache.

    Conventions of the embedding
    - C [int] and [unsigned long] values are [Z]; every arithmetic
      expression of the modelled paths stays far inside the 32-bit range
      under the hypotheses of the theorems, so no wrap-around occurs
      except at the one narrowing cast [(int) base], which is written out.
    - A C [double] is a primitive binary64 float; its conversion to
      [int] is [int_of_double].
    - The file-scope statics ([sck_period], [chunk_size], [cache_mem],
      [cache_base], [cache_buf], [cache_disable]) are the fields of an
      explicit [state] that every function threads through.
    - libusb's [usb_control_msg] is the outside world: a [device] decides
      its return value and the bytes it delivers from the history of the
      session and the message; every call is recorded in the [trace].
    - [printf]/[fprintf] diagnostics are not modelled, nor are
      [usbtiny_close] and [usbtiny_powerdown], which only test and clear
      the USB handle; [usbtiny_open], which sets it, is modelled apart
      from the other statics. *)

From Equations Require Import Equations.
From Stdlib Require Import ZArith String List Lia Bool Floats.
Import ListNotations.
Local Close Scope string_scope.
Local Open Scope Z_scope.

(** ** Constants of the two anonymous enums *)

Inductive usb_request : Type :=
| USBTINY_ECHO
| USBTINY_READ
| USBTINY_WRITE
| USBTINY_CLR
| USBTINY_SET
| USBTINY_POWERUP
| USBTINY_POWERDOWN
| USBTINY_SPI
| USBTINY_POLL_BYTES
| USBTINY_FLASH_READ
| USBTINY_FLASH_WRITE
| USBTINY_EEPROM_READ
| USBTINY_EEPROM_WRITE.

Definition RESET_LOW : Z := 0.
Definition RESET_HIGH : Z := 1.
Definition SCK_MIN : Z := 1.
Definition SCK_MAX : Z := 250.
Definition SCK_DEFAULT : Z := 10.
Definition CHUNK_SIZE : Z := 128.
Definition USB_TIMEOUT : Z := 500.

(** ** Timing controller: the loop of [usbtiny_set_chunk_size]

<<
	while	( chunk_size > 8 && period > 16 )
	{
		chunk_size >>= 1;
		period >>= 1;
	}
>>
    The loop halves [chunk_size], so it terminates for every input; the
    recursion is on the size of the chunk. *)

Equations? chunk_size_loop (chunk period : Z) : Z by wf (Z.to_nat chunk) lt :=
  chunk_size_loop chunk period
    with Sumbool.sumbool_of_bool ((chunk >? 8) && (period >? 16)) => {
    | left _ := chunk_size_loop (Z.shiftr chunk 1) (Z.shiftr period 1);
    | right _ := chunk }.
Proof.
  apply andb_prop in e. destruct e as [Hc _].
  apply Z.gtb_lt in Hc.
  rewrite Z.shiftr_div_pow2 by lia.
  change (2 ^ 1) with 2.
  assert (chunk / 2 < chunk) by (apply Z.div_lt; lia).
  assert (0 <= chunk / 2) by (apply Z.div_pos; lia).
  lia.
Qed.

(** ** Data model *)

(** [byte_t]: an [unsigned char], a [Z] in [0, 255]. Arrays of bytes are
    lists, read with [nth _ _ 0]. *)
Definition byte_t : Type := Z.

Inductive endpoint : Type := USB_ENDPOINT_IN | USB_ENDPOINT_OUT.

(** One call of [usb_control_msg]: direction, request, [wValue],
    [wIndex], the bytes sent (outbound only), the length of the buffer
    and the timeout in milliseconds. *)
Record usb_msg : Type := mk_msg {
  msg_dir : endpoint;
  msg_req : usb_request;
  msg_val : Z;
  msg_index : Z;
  msg_data : list byte_t;
  msg_len : Z;
  msg_timeout : Z
}.

(** What [usb_control_msg] answers: its return value (the number of bytes
    moved, negative on error) and, for an inbound transfer, the bytes the
    adapter sent. *)
Record usb_reply : Type := mk_reply {
  reply_n : Z;
  reply_data : list byte_t
}.

(** Calls that leave the driver, in program order. *)
Inductive event : Type :=
| EvUsb (m : usb_msg) (n : Z)
| EvSleep (usec : Z)
| EvProgress (done total : Z)
| EvWritePage (mem : nat) (addr : Z)
| EvReadByteDefault (mem : nat) (addr : Z)
| EvWriteByteDefault (mem : nat) (addr : Z) (data : byte_t).

(** [AVRMEM], the fields the driver reads; [mem_id] stands for the address
    of the structure, which is all that [cache_mem != m] compares. *)
Record AVRMEM : Type := mk_mem {
  mem_id : nat;
  desc : string;
  size : Z;
  paged : Z;
  readback : byte_t * byte_t;
  max_write_delay : Z;
  buf : list byte_t
}.

Definition with_buf (m : AVRMEM) (b : list byte_t) : AVRMEM :=
  mk_mem (mem_id m) (desc m) (size m) (paged m) (readback m)
         (max_write_delay m) b.

(** The file-scope statics, and the trace of outside calls. [cache_mem] is
    a pointer: [None] is [NULL]. *)
Record state : Type := mk_state {
  sck_period : Z;
  chunk_size : Z;
  cache_mem : option nat;
  cache_base : Z;
  cache_buf : list byte_t;
  cache_disable : Z;
  trace : list event
}.

Definition log (e : event) (st : state) : state :=
  mk_state (sck_period st) (chunk_size st) (cache_mem st) (cache_base st)
           (cache_buf st) (cache_disable st) (trace st ++ [e]).

Definition with_sck_period (v : Z) (st : state) : state :=
  mk_state v (chunk_size st) (cache_mem st) (cache_base st)
           (cache_buf st) (cache_disable st) (trace st).

Definition with_chunk_size (v : Z) (st : state) : state :=
  mk_state (sck_period st) v (cache_mem st) (cache_base st)
           (cache_buf st) (cache_disable st) (trace st).

Definition with_cache_mem (v : option nat) (st : state) : state :=
  mk_state (sck_period st) (chunk_size st) v (cache_base st)
           (cache_buf st) (cache_disable st) (trace st).

Definition with_cache_base (v : Z) (st : state) : state :=
  mk_state (sck_period st) (chunk_size st) (cache_mem st) v
           (cache_buf st) (cache_disable st) (trace st).

Definition with_cache_buf (v : list byte_t) (st : state) : state :=
  mk_state (sck_period st) (chunk_size st) (cache_mem st) (cache_base st)
           v (cache_disable st) (trace st).

Definition with_cache_disable (v : Z) (st : state) : state :=
  mk_state (sck_period st) (chunk_size st) (cache_mem st) (cache_base st)
           (cache_buf st) v (trace st).

(** [store dst off src]: the array [dst] after [src] was copied to
    [dst + off]. *)
Definition store (dst : list byte_t) (off : Z) (src : list byte_t)
  : list byte_t :=
  firstn (Z.to_nat off) dst ++ src
    ++ skipn (Z.to_nat off + length src) dst.

(** [slice src off len]: the [len] bytes at [src + off]. *)
Definition slice (src : list byte_t) (off len : Z) : list byte_t :=
  firstn (Z.to_nat len) (skipn (Z.to_nat off) src).

(** [(int) x] for an [unsigned long] [x]: reduction to 32 bits, two's
    complement. *)
Definition int_of_ulong (x : Z) : Z :=
  let r := x mod 2 ^ 32 in
  if r <? 2 ^ 31 then r else r - 2 ^ 32.

(** *** Conversion of a [double] to [int]

    A binary64 value is zero, infinite, not a number, or the finite value
    [(-1)^s * m * 2^e] ([Prim2SF]). *)
Definition INT_MIN : Z := - 2 ^ 31.
Definition INT_MAX : Z := 2 ^ 31 - 1.

(** The integral part of [x], the fraction discarded (toward zero);
    nothing for an infinity or a NaN. *)
Definition double_trunc (x : float) : option Z :=
  match Prim2SF x with
  | S754_zero _ => Some 0
  | S754_finite s m e =>
      let mag := Z.shiftl (Z.pos m) e in
      Some (if s then - mag else mag)
  | S754_infinity _ | S754_nan => None
  end.

(** [(int) x] for a [double] [x]: the integral part where an [int] can
    hold it. Elsewhere (a magnitude of 2^31 and more, an infinity, a NaN)
    C leaves the conversion undefined; the embedding takes what the x86
    conversion instructions ([cvttsd2si], [fistp]) deliver there, the
    "integer indefinite" value [INT_MIN]. *)
Definition int_of_double (x : float) : Z :=
  match double_trunc x with
  | Some z => if (INT_MIN <=? z) && (z <=? INT_MAX) then z else INT_MIN
  | None => INT_MIN
  end.

(** The nearest integer to a [double] [x], halves upward:
    [floor (x + 1/2)], computed exactly. *)
Definition double_round (x : float) : option Z :=
  match Prim2SF x with
  | S754_zero _ => Some 0
  | S754_finite s m e =>
      let num := if s then - Z.pos m else Z.pos m in
      Some (if 0 <=? e then num * 2 ^ e
            else (2 * num + 2 ^ (- e)) / 2 ^ (1 - e))
  | S754_infinity _ | S754_nan => None
  end.

Definition clamp (lo hi z : Z) : Z := Z.max lo (Z.min hi z).

(** The period the specification asks for at a bit clock of [v] seconds:
    [clamp (round (v * 1e6), 1, 250)], the product taken on doubles as
    the source takes it, the rounding exact. *)
Definition requested_sck_period (v : float) : option Z :=
  option_map (clamp SCK_MIN SCK_MAX) (double_round (v * 1e6)%float).

Definition is_flash (m : AVRMEM) : bool := String.eqb (desc m) "flash"%string.
Definition is_eeprom (m : AVRMEM) : bool := String.eqb (desc m) "eeprom"%string.

(** ** Observations on a trace *)

(** The inbound exchanges that fill a buffer from flash or eeprom; the
    cache refills are among them. *)
Definition is_read_exchange (e : event) : bool :=
  match e with
  | EvUsb m _ =>
      match msg_req m with
      | USBTINY_FLASH_READ | USBTINY_EEPROM_READ => true
      | _ => false
      end
  | _ => false
  end.

Definition is_write_exchange (e : event) : bool :=
  match e with
  | EvUsb m _ =>
      match msg_req m with
      | USBTINY_FLASH_WRITE | USBTINY_EEPROM_WRITE => true
      | _ => false
      end
  | _ => false
  end.

Definition is_spi_exchange (e : event) : bool :=
  match e with
  | EvUsb m _ =>
      match msg_req m with USBTINY_SPI => true | _ => false end
  | _ => false
  end.

Definition is_write_page (e : event) : bool :=
  match e with EvWritePage _ _ => true | _ => false end.

Definition count (f : event -> bool) (tr : list event) : Z :=
  Z.of_nat (length (filter f tr)).

(** Number of bytes an exchange asks for, and the number it moved. *)
Definition requested (e : event) : Z :=
  match e with EvUsb m _ => msg_len m | _ => 0 end.

Definition moved (e : event) : Z :=
  match e with EvUsb _ n => n | _ => 0 end.

Definition total (g : event -> Z) (f : event -> bool) (tr : list event) : Z :=
  fold_right (fun e acc => (if f e then g e else 0) + acc) 0 tr.

(** Offset and length of the chunks, in order. *)
Definition chunks (f : event -> bool) (tr : list event) : list (Z * Z) :=
  flat_map (fun e => match e with
                     | EvUsb m _ =>
                         if f e then [(msg_index m, msg_len m)] else []
                     | _ => []
                     end) tr.

Definition commits (tr : list event) : list Z :=
  flat_map (fun e => match e with EvWritePage _ a => [a] | _ => [] end) tr.

(** A session state right after [usbtiny_set_chunk_size] left [chunk] in
    [chunk_size], with an empty trace, and a region of [len] zero bytes;
    the scenarios run on them. *)
Definition session (period chunk : Z) : state :=
  mk_state period chunk None 0 (repeat 0 128%nat) 0 [].

Definition region (id : nat) (d : string) (pg : Z) (len : nat) : AVRMEM :=
  mk_mem id d (Z.of_nat len) pg (255, 255) 0 (repeat 0 len).

(** [PROGRAMMER]: the driver reads only [bitclock], a [double]. The
    embedding keeps the two things the driver computes from it: the test
    [bitclock > 0.0] and the converted period
    [(int) (bitclock * 1e6 + 0.5)]. The function pointers are set by
    [usbtiny_initpgm] to the functions below, so a call through [pgm] is a
    direct call here. *)
Record PROGRAMMER : Type := mk_pgm {
  bitclock_positive : bool;
  bitclock_usec : Z
}.

Section Driver.

(** The adapter behind [usb_control_msg]. *)
Variable device : list event -> usb_msg -> usb_reply.

(** [sizeof(res)] inside [usbtiny_cmd]. [res] is a parameter declared
    [byte_t res[4]], so it has pointer type and its size is that of a
    pointer on the platform the driver is compiled for. *)
Variable sizeof_res : Z.

(** From [avrpart.h] and [avr.c], not part of this file: the bit
    templates, [avr_set_bits], the operation numbers and the default
    byte-wise paths (their status and the byte they produce). *)
Variable OPCODE : Type.
Variable avr_set_bits : OPCODE -> list byte_t -> list byte_t.
Variable AVR_OP_CHIP_ERASE : Z.
Variable AVR_OP_PGM_ENABLE : Z.
Variable avr_read_byte_default_result :
  list event -> AVRMEM -> Z -> Z * option byte_t.
Variable avr_write_byte_default_result :
  list event -> AVRMEM -> Z -> byte_t -> Z.

(** [AVRPART]: [op] is the table [p->op[]], [None] a null entry. *)
Record AVRPART : Type := mk_part {
  op : Z -> option OPCODE;
  chip_erase_delay : Z
}.

(** *** Outside calls

    The collaborators of the driver are not part of [usbtiny.c]. Each call
    is an event of the trace; what the callee does on its own is outside
    this file. *)

(** libusb's [usb_control_msg]: the adapter answers, the call is logged
    with its return value. *)
Definition usb_control_msg (st : state) (m : usb_msg) : usb_reply * state :=
  let r := device (trace st) m in
  (r, log (EvUsb m (reply_n r)) st).

Definition usleep (st : state) (usec : Z) : state := log (EvSleep usec) st.

(** Modelled from the spec: [report_progress] of the host program, the
    progress sink called with (done, total). *)
Definition report_progress (st : state) (done total : Z) : state :=
  log (EvProgress done total) st.

(** Modelled from the spec: [avr_write_page] of [avr.c], the external
    commit-page step, called with the region and an address. *)
Definition avr_write_page (st : state) (m : AVRMEM) (addr : Z) : state :=
  log (EvWritePage (mem_id m) addr) st.

(** Modelled from the spec: [avr_read_byte_default] and
    [avr_write_byte_default] of [avr.c], the external default byte paths;
    their results are parameters. *)
Definition avr_read_byte_default (st : state) (m : AVRMEM) (addr : Z)
  : Z * option byte_t * state :=
  (avr_read_byte_default_result (trace st) m addr,
   log (EvReadByteDefault (mem_id m) addr) st).

Definition avr_write_byte_default (st : state) (m : AVRMEM) (addr : Z)
           (data : byte_t) : Z * state :=
  (avr_write_byte_default_result (trace st) m addr data,
   log (EvWriteByteDefault (mem_id m) addr data) st).

(** *** [usb_control], [usb_in], [usb_out] *)

Definition usb_control (st : state) (req : usb_request) (val index : Z)
  : state :=
  snd (usb_control_msg st
         (mk_msg USB_ENDPOINT_IN req val index [] 0 USB_TIMEOUT)).

(** Returns the status, the bytes that arrived in [buf] and the state. *)
Definition usb_in (st : state) (req : usb_request) (val index : Z)
           (buflen umax : Z) : Z * list byte_t * state :=
  let timeout := USB_TIMEOUT + Z.quot (buflen * umax) 1000 in
  let '(r, st1) :=
    usb_control_msg st
      (mk_msg USB_ENDPOINT_IN req val index [] buflen timeout) in
  let n := reply_n r in
  let rx := firstn (Z.to_nat (Z.min n buflen)) (reply_data r) in
  (if negb (n =? buflen) then -1 else 0, rx, st1).

Definition usb_out (st : state) (req : usb_request) (val index : Z)
           (data : list byte_t) (buflen umax : Z) : Z * state :=
  let timeout := USB_TIMEOUT + Z.quot (buflen * umax) 1000 in
  let '(r, st1) :=
    usb_control_msg st
      (mk_msg USB_ENDPOINT_OUT req val index data buflen timeout) in
  let n := reply_n r in
  (if negb (n =? buflen) then -1 else 0, st1).

(** *** [usbtiny_cmd] and [usbtiny_avr_op]

    [res] is the caller's array: it goes in, is cleared over
    [sizeof(res)] bytes, receives the transfer, and comes out. The array
    has four entries; what a longer transfer writes past it is cut. *)
Definition usbtiny_cmd (st : state) (cmd res : list byte_t)
  : Z * list byte_t * state :=
  let st := with_cache_mem None st in
  let res := firstn 4 (store res 0 (repeat 0 (Z.to_nat sizeof_res))) in
  let '(r, rx, st) :=
    usb_in st USBTINY_SPI
           (Z.lor (Z.shiftl (nth 1 cmd 0) 8) (nth 0 cmd 0))
           (Z.lor (Z.shiftl (nth 3 cmd 0) 8) (nth 2 cmd 0))
           sizeof_res (8 * sck_period st) in
  let res := firstn 4 (store res 0 rx) in
  (if (r =? 0) && (nth 2 res 0 =? nth 1 cmd 0) then 1 else 0, res, st).

(** The request that [usbtiny_cmd] hands to [usb_control_msg] for [cmd]. *)
Definition spi_msg (st : state) (cmd : list byte_t) : usb_msg :=
  mk_msg USB_ENDPOINT_IN USBTINY_SPI
         (Z.lor (Z.shiftl (nth 1 cmd 0) 8) (nth 0 cmd 0))
         (Z.lor (Z.shiftl (nth 3 cmd 0) 8) (nth 2 cmd 0))
         [] sizeof_res
         (USB_TIMEOUT + Z.quot (sizeof_res * (8 * sck_period st)) 1000).

Definition usbtiny_avr_op (st : state) (p : AVRPART) (o : Z)
           (res : list byte_t) : Z * list byte_t * state :=
  match op p o with
  | None => (-1, res, st)
  | Some t =>
      let cmd := repeat 0 4%nat in
      let cmd := avr_set_bits t cmd in
      usbtiny_cmd st cmd res
  end.

(** *** Timing controller *)

Definition usbtiny_set_chunk_size (st : state) (period : Z) : state :=
  with_chunk_size (chunk_size_loop CHUNK_SIZE period) st.

(** [v_usec] is [(int) (v * 1e6 + 0.5)]. *)
Definition usbtiny_set_sck_period (st : state) (v_usec : Z) : Z * state :=
  let st := with_sck_period v_usec st in
  let st := if sck_period st <? SCK_MIN
            then with_sck_period SCK_MIN st else st in
  let st := if sck_period st >? SCK_MAX
            then with_sck_period SCK_MAX st else st in
  let st := usb_control st USBTINY_POWERUP (sck_period st) RESET_LOW in
  let st := usbtiny_set_chunk_size st (sck_period st) in
  (0, st).

(** [usbtiny_set_sck_period] on the [double] [v] of its caller: the first
    statement, [sck_period = (int) (v * 1e6 + 0.5)], then the rest. *)
Definition usbtiny_set_sck_period_of_double (st : state) (v : float)
  : Z * state :=
  usbtiny_set_sck_period st (int_of_double (v * 1e6 + 0.5)%float).

(** *** [usbtiny_initialize]; [res] is the initial content of its local
    array. *)
Definition usbtiny_initialize (st : state) (pgm : PROGRAMMER) (p : AVRPART)
           (res : list byte_t) : Z * state :=
  let st :=
    if bitclock_positive pgm
    then snd (usbtiny_set_sck_period st (bitclock_usec pgm))
    else
      let st := with_sck_period SCK_DEFAULT st in
      let st := usb_control st USBTINY_POWERUP (sck_period st) RESET_LOW in
      usbtiny_set_chunk_size st (sck_period st) in
  let st := usleep st 50000 in
  let '(r, res, st) := usbtiny_avr_op st p AVR_OP_PGM_ENABLE res in
  if r =? 0 then
    let st := usb_control st USBTINY_POWERUP (sck_period st) RESET_HIGH in
    let st := usb_control st USBTINY_POWERUP (sck_period st) RESET_LOW in
    let st := usleep st 20000 in
    let '(r, res, st) := usbtiny_avr_op st p AVR_OP_PGM_ENABLE res in
    if r =? 0 then (-1, st) else (0, st)
  else (0, st).

Definition usbtiny_chip_erase (st : state) (pgm : PROGRAMMER) (p : AVRPART)
           (res res' : list byte_t) : Z * state :=
  let '(r, _, st) := usbtiny_avr_op st p AVR_OP_CHIP_ERASE res in
  let st := usleep st (chip_erase_delay p) in
  let st := usb_control st USBTINY_POWERUP (sck_period st) RESET_HIGH in
  let '(_, st) := usbtiny_initialize st pgm p res' in
  (r, st).

(** *** Memory access engine

    The two [for] loops advance [i] by [chunk], which is positive only
    when [chunk_size] (and, for a paged region, [page_size]) is; the
    loops are therefore run on fuel, [None] meaning that the fuel ran
    out before [i] reached [n_bytes]. *)

Fixpoint paged_load_loop (fuel : nat) (req : usb_request) (n_bytes i : Z)
         (m : AVRMEM) (st : state) : option (AVRMEM * state) :=
  if i <? n_bytes then
    match fuel with
    | O => None
    | S fuel =>
        let chunk := chunk_size st in
        let chunk := if chunk >? n_bytes - i then n_bytes - i else chunk in
        let '(_, rx, st) :=
          usb_in st req 0 i chunk (32 * sck_period st) in
        let m := with_buf m (store (buf m) i rx) in
        let st := report_progress st (i + chunk) n_bytes in
        paged_load_loop fuel req n_bytes (i + chunk) m st
    end
  else Some (m, st).

Definition usbtiny_paged_load (fuel : nat) (st : state) (m : AVRMEM)
           (page_size n_bytes : Z) : option (Z * AVRMEM * state) :=
  let req := if is_flash m then USBTINY_FLASH_READ
             else USBTINY_EEPROM_READ in
  match paged_load_loop fuel req n_bytes 0 m st with
  | Some (m, st) => Some (n_bytes, m, st)
  | None => None
  end.

Fixpoint paged_write_loop (fuel : nat) (req : usb_request) (delay : Z)
         (page_size n_bytes i : Z) (m : AVRMEM) (st : state)
  : option state :=
  if i <? n_bytes then
    match fuel with
    | O => None
    | S fuel =>
        let chunk := chunk_size st in
        let chunk := if negb (paged m =? 0) && (chunk >? page_size)
                     then page_size else chunk in
        let chunk := if chunk >? n_bytes - i then n_bytes - i else chunk in
        let '(_, st) :=
          usb_out st req delay i (slice (buf m) i chunk) chunk
                  (32 * sck_period st + delay) in
        let next := i + chunk in
        let st :=
          if negb (paged m =? 0)
             && ((Z.rem next page_size =? 0) || (next =? n_bytes))
          then avr_write_page st m i else st in
        let st := report_progress st next n_bytes in
        paged_write_loop fuel req delay page_size n_bytes next m st
    end
  else Some st.

Definition usbtiny_paged_write (fuel : nat) (st : state) (m : AVRMEM)
           (page_size n_bytes : Z) : option (Z * state) :=
  let req := if is_flash m then USBTINY_FLASH_WRITE
             else USBTINY_EEPROM_WRITE in
  let '(delay, st) :=
    if paged m =? 0 then
      let i := Z.lor (Z.shiftl (snd (readback m)) 8) (fst (readback m)) in
      let st := usb_control st USBTINY_POLL_BYTES i 0 in
      (max_write_delay m, st)
    else (0, st) in
  match paged_write_loop fuel req delay page_size n_bytes 0 m st with
  | Some st => Some (n_bytes, st)
  | None => None
  end.

(** *** Byte cache *)

(** The byte stored through [value], when the function stores one. *)
Definition usbtiny_read_byte (st : state) (m : AVRMEM) (addr : Z)
  : Z * option byte_t * state :=
  if cache_disable st >? 0 then avr_read_byte_default st m addr
  else if negb (is_flash m) && negb (is_eeprom m)
  then avr_read_byte_default st m addr
  else
    let base := Z.land addr (Z.lnot (chunk_size st - 1)) in
    let hit st :=
      (0, Some (nth (Z.to_nat (addr - base)) (cache_buf st) 0), st) in
    if negb (match cache_mem st with
             | Some c => Nat.eqb c (mem_id m)
             | None => false
             end)
       || negb (cache_base st =? base)
    then
      let req := if is_flash m then USBTINY_FLASH_READ
                 else USBTINY_EEPROM_READ in
      let sz := if size m <? chunk_size st then size m else chunk_size st in
      let '(r, rx, st) :=
        usb_in st req 0 (int_of_ulong base) sz (32 * sck_period st) in
      let st := with_cache_buf (firstn (Z.to_nat CHUNK_SIZE)
                                       (store (cache_buf st) 0 rx)) st in
      if negb (r =? 0) then (-1, None, with_cache_mem None st)
      else
        let st := with_cache_mem (Some (mem_id m)) st in
        let st := with_cache_base base st in
        hit st
    else hit st.

Definition usbtiny_write_byte (st : state) (m : AVRMEM) (addr : Z)
           (value : byte_t) : Z * state :=
  let st := with_cache_disable (cache_disable st + 1) st in
  let '(r, st) := avr_write_byte_default st m addr value in
  let st := with_cache_disable (cache_disable st - 1) st in
  (r, st).

(** Names for the pieces of [usbtiny_read_byte]: the regions that are
    cached, the base of an address, the request and the size of a
    refill, and the condition under which the cache answers. *)
Definition cacheable (m : AVRMEM) : bool := is_flash m || is_eeprom m.

Definition base_of (st : state) (addr : Z) : Z :=
  Z.land addr (Z.lnot (chunk_size st - 1)).

Definition read_req (m : AVRMEM) : usb_request :=
  if is_flash m then USBTINY_FLASH_READ else USBTINY_EEPROM_READ.

Definition refill_size (st : state) (m : AVRMEM) : Z :=
  if size m <? chunk_size st then size m else chunk_size st.

Definition cache_holds (st : state) (m : AVRMEM) (addr : Z) : Prop :=
  cache_mem st = Some (mem_id m) /\ cache_base st = base_of st addr.

(** The [usb_in] call that refills the cache for [addr]. *)
Definition refill (st : state) (m : AVRMEM) (addr : Z)
  : Z * list byte_t * state :=
  usb_in st (read_req m) 0 (int_of_ulong (base_of st addr))
         (refill_size st m) (32 * sck_period st).

(** Names for the pieces of the two loops: the chunk of an iteration and
    the condition of the page commit. *)
Definition load_chunk (st : state) (n_bytes i : Z) : Z :=
  if chunk_size st >? n_bytes - i then n_bytes - i else chunk_size st.

Definition write_cap (st : state) (m : AVRMEM) (page_size : Z) : Z :=
  if negb (paged m =? 0) && (chunk_size st >? page_size)
  then page_size else chunk_size st.

Definition write_chunk (st : state) (m : AVRMEM) (page_size n_bytes i : Z)
  : Z :=
  if write_cap st m page_size >? n_bytes - i
  then n_bytes - i else write_cap st m page_size.

Definition commit_due (m : AVRMEM) (page_size n_bytes next : Z) : bool :=
  negb (paged m =? 0)
  && ((Z.rem next page_size =? 0) || (next =? n_bytes)).

(** The state in which the loop of [usbtiny_paged_write] starts. *)
Definition paged_write_entry (st : state) (m : AVRMEM) : state :=
  if paged m =? 0
  then usb_control st USBTINY_POLL_BYTES
         (Z.lor (Z.shiftl (snd (readback m)) 8) (fst (readback m))) 0
  else st.

(** [ceil_div n P] is the least [k] with [n <= k * P], for [P > 0]. *)
Definition ceil_div (n P : Z) : Z := (n + P - 1) / P.

(** Pages still to commit when the loop stands at offset [i]. *)
Definition commits_left (P n i : Z) : Z :=
  if i <? n then ceil_div n P - i / P else 0.

(** ** Properties *)

(** *** The chunk size *)

Example chunk_size_loop_10 : chunk_size_loop 128 10 = 128.
Proof. reflexivity. Qed.
Example chunk_size_loop_200 : chunk_size_loop 128 200 = 8.
Proof. vm_compute. reflexivity. Qed.

Lemma chunk_size_loop_step (chunk period : Z) :
  chunk_size_loop chunk period =
  if (chunk >? 8) && (period >? 16)
  then chunk_size_loop (Z.shiftr chunk 1) (Z.shiftr period 1)
  else chunk.
Proof.
  rewrite chunk_size_loop_equation_1.
  destruct (Sumbool.sumbool_of_bool ((chunk >? 8) && (period >? 16)))
    as [e | e]; cbn [chunk_size_loop_unfold_clause_1];
    rewrite e; reflexivity.
Qed.

(** Arithmetic with the divisions by 2 that the shifts leave. *)
Ltac div_lia := exfalso; Z.to_euclidean_division_equations; lia.

(** One turn of the loop against one row of the table: either the loop
    stops at [period'] and the row [bound] applies, or both go on. *)
Ltac table_row period' period bound :=
  destruct (Z.gtb_spec period' 16);
  [ destruct (Z.leb_spec period bound); [div_lia | ]
  | destruct (Z.leb_spec period bound); [reflexivity | div_lia] ].

(** The loop from [CHUNK_SIZE], as a table on the period. *)
Lemma chunk_size_loop_table (period : Z) :
  chunk_size_loop CHUNK_SIZE period =
  if period <=? 16 then 128
  else if period <=? 33 then 64
  else if period <=? 67 then 32
  else if period <=? 135 then 16
  else 8.
Proof.
  unfold CHUNK_SIZE.
  assert (Hs : forall x, Z.shiftr x 1 = x / 2)
    by (intro x; rewrite Z.shiftr_div_pow2 by lia; reflexivity).
  rewrite chunk_size_loop_step. change (128 >? 8) with true. cbn [andb].
  table_row period period 16.
  rewrite chunk_size_loop_step, !Hs. change (128 / 2 >? 8) with true.
  cbn [andb]. change (128 / 2) with 64.
  table_row (period / 2) period 33.
  rewrite chunk_size_loop_step, !Hs. change (64 / 2 >? 8) with true.
  cbn [andb]. change (64 / 2) with 32.
  table_row (period / 2 / 2) period 67.
  rewrite chunk_size_loop_step, !Hs. change (32 / 2 >? 8) with true.
  cbn [andb]. change (32 / 2) with 16.
  table_row (period / 2 / 2 / 2) period 135.
  rewrite chunk_size_loop_step, !Hs. change (16 / 2 >? 8) with false.
  reflexivity.
Qed.

Lemma usbtiny_set_chunk_size_chunk (st : state) (period : Z) :
  chunk_size (usbtiny_set_chunk_size st period) =
  chunk_size_loop CHUNK_SIZE period.
Proof. reflexivity. Qed.

(** C5: for a clock period in [1, 250] the chunk size that
    [usbtiny_set_chunk_size] derives is a power of two between 8 and 128,
    it does not grow when the period grows, period 10 gives 128 and
    period 200 gives 8. *)
Theorem C5_chunk_size_power_of_two_monotone
        (st st' : state) (period period' : Z) :
  1 <= period <= 250 ->
  1 <= period' <= 250 ->
  let c := chunk_size (usbtiny_set_chunk_size st period) in
  let c' := chunk_size (usbtiny_set_chunk_size st' period') in
  (exists k, 0 <= k /\ c = 2 ^ k) /\
  8 <= c <= 128 /\
  (period <= period' -> c' <= c) /\
  chunk_size (usbtiny_set_chunk_size st 10) = 128 /\
  chunk_size (usbtiny_set_chunk_size st 200) = 8.
Proof.
  intros Hp Hp' c c'. subst c c'.
  rewrite !usbtiny_set_chunk_size_chunk, !chunk_size_loop_table.
  repeat split.
  - repeat match goal with
           | |- context [if ?b then _ else _] => destruct b
           end;
      [ exists 7 | exists 6 | exists 5 | exists 4 | exists 3 ];
      split; (lia || reflexivity).
  - repeat match goal with
           | |- context [if ?b then _ else _] => destruct b
           end; lia.
  - repeat match goal with
           | |- context [if ?b then _ else _] => destruct b
           end; lia.
  - intro Hle.
    repeat match goal with
           | |- context [if ?b then _ else _] =>
               let E := fresh "E" in destruct b eqn:E
           end; try lia;
      repeat match goal with
             | E : (_ <=? _) = true |- _ => apply Z.leb_le in E
             | E : (_ <=? _) = false |- _ => apply Z.leb_gt in E
             end; lia.
Qed.

(** *** Counting on traces *)

Lemma count_app (f : event -> bool) (t1 t2 : list event) :
  count f (t1 ++ t2) = count f t1 + count f t2.
Proof.
  unfold count. rewrite filter_app, length_app. lia.
Qed.

Lemma count_log (f : event -> bool) (e : event) (st : state) :
  count f (trace (log e st)) = count f (trace st) + (if f e then 1 else 0).
Proof.
  cbn [log trace]. rewrite count_app. unfold count at 2. cbn [filter].
  destruct (f e); reflexivity.
Qed.

Lemma total_app (g : event -> Z) (f : event -> bool) (t1 t2 : list event) :
  total g f (t1 ++ t2) = total g f t1 + total g f t2.
Proof.
  unfold total. induction t1 as [| e t1 IH]; cbn [app fold_right]; lia.
Qed.

Lemma total_log (g : event -> Z) (f : event -> bool) (e : event) (st : state) :
  total g f (trace (log e st)) =
  total g f (trace st) + (if f e then g e else 0).
Proof.
  cbn [log trace]. rewrite total_app. unfold total at 2.
  cbn [fold_right]. lia.
Qed.

(** *** The transport wrappers *)

Lemma usb_control_trace (st : state) (req : usb_request) (val index : Z) :
  exists n,
    usb_control st req val index =
    log (EvUsb (mk_msg USB_ENDPOINT_IN req val index [] 0 USB_TIMEOUT) n) st.
Proof. eexists. reflexivity. Qed.

(** [usb_in] performs one exchange and succeeds exactly when the
    exchange moved [buflen] bytes. *)
Lemma usb_in_exchange (st : state) (req : usb_request) (val index : Z)
      (buflen umax : Z) :
  exists msg,
    msg_req msg = req /\ msg_index msg = index /\ msg_len msg = buflen /\
    msg_dir msg = USB_ENDPOINT_IN /\
    let r := device (trace st) msg in
    usb_in st req val index buflen umax =
    (if reply_n r =? buflen then 0 else -1,
     firstn (Z.to_nat (Z.min (reply_n r) buflen)) (reply_data r),
     log (EvUsb msg (reply_n r)) st).
Proof.
  exists (mk_msg USB_ENDPOINT_IN req val index [] buflen
                 (USB_TIMEOUT + Z.quot (buflen * umax) 1000)).
  do 4 (split; [reflexivity | ]).
  unfold usb_in, usb_control_msg. cbn zeta.
  destruct (reply_n _ =? buflen); reflexivity.
Qed.

Lemma usb_out_exchange (st : state) (req : usb_request) (val index : Z)
      (data : list byte_t) (buflen umax : Z) :
  exists msg,
    msg_req msg = req /\ msg_index msg = index /\ msg_len msg = buflen /\
    msg_dir msg = USB_ENDPOINT_OUT /\
    let r := device (trace st) msg in
    usb_out st req val index data buflen umax =
    (if reply_n r =? buflen then 0 else -1, log (EvUsb msg (reply_n r)) st).
Proof.
  exists (mk_msg USB_ENDPOINT_OUT req val index data buflen
                 (USB_TIMEOUT + Z.quot (buflen * umax) 1000)).
  do 4 (split; [reflexivity | ]).
  unfold usb_out, usb_control_msg. cbn zeta.
  destruct (reply_n _ =? buflen); reflexivity.
Qed.

(** *** The command relay *)

Lemma usbtiny_cmd_exchange (st : state) (cmd res : list byte_t) :
  exists msg res',
    msg_req msg = USBTINY_SPI /\ msg_len msg = sizeof_res /\
    let n := reply_n (device (trace st) msg) in
    usbtiny_cmd st cmd res =
    (if (n =? sizeof_res) && (nth 2 res' 0 =? nth 1 cmd 0) then 1 else 0,
     res', log (EvUsb msg n) (with_cache_mem None st)).
Proof.
  unfold usbtiny_cmd.
  destruct (usb_in_exchange (with_cache_mem None st) USBTINY_SPI
              (Z.lor (Z.shiftl (nth 1 cmd 0) 8) (nth 0 cmd 0))
              (Z.lor (Z.shiftl (nth 3 cmd 0) 8) (nth 2 cmd 0))
              sizeof_res (8 * sck_period (with_cache_mem None st)))
    as (msg & Hreq & _ & Hlen & _ & Hin).
  cbn zeta in Hin. rewrite Hin. cbn [trace with_cache_mem].
  exists msg. eexists. split; [exact Hreq | split; [exact Hlen | ]].
  cbn zeta. destruct (reply_n (device (trace st) msg) =? sizeof_res);
    reflexivity.
Qed.

(** The clamp of [usbtiny_set_sck_period], on the state. *)
Lemma v_clamp_cases (v : Z) :
  exists sck,
    forall st,
      (let st := with_sck_period v st in
       let st := if sck_period st <? SCK_MIN
                 then with_sck_period SCK_MIN st else st in
       if sck_period st >? SCK_MAX
       then with_sck_period SCK_MAX st else st) =
      with_sck_period sck st.
Proof.
  destruct (v <? SCK_MIN) eqn:E1;
    [ exists SCK_MIN
    | destruct (v >? SCK_MAX) eqn:E2; [exists SCK_MAX | exists v] ];
    intros st; cbn [with_sck_period sck_period];
    rewrite ?E1; cbn [with_sck_period sck_period]; rewrite ?E2;
    reflexivity.
Qed.

(** Whatever the conversion of the requested bit clock gave, the period
    that [usbtiny_set_sck_period] stores is its clamp to
    [SCK_MIN, SCK_MAX], and the chunk size is derived from it. *)
Lemma usbtiny_set_sck_period_clamps (st : state) (v_usec : Z) :
  let st' := snd (usbtiny_set_sck_period st v_usec) in
  sck_period st' = Z.max SCK_MIN (Z.min SCK_MAX v_usec) /\
  SCK_MIN <= sck_period st' <= SCK_MAX /\
  chunk_size st' = chunk_size_loop CHUNK_SIZE (sck_period st').
Proof.
  unfold usbtiny_set_sck_period. cbn [snd].
  destruct (v_clamp_cases v_usec) as (sck & Hsck).
  pose proof (Hsck st) as Hst. cbn zeta in Hst.
  assert (Hval : sck = Z.max SCK_MIN (Z.min SCK_MAX v_usec)).
  { replace sck with (sck_period (with_sck_period sck st)) by reflexivity.
    rewrite <- Hst. clear.
    unfold SCK_MIN, SCK_MAX. cbv [with_sck_period sck_period].
    destruct (Z.ltb_spec v_usec 1) as [H1 | H1];
      cbv [with_sck_period sck_period].
    - change (1 >? 250) with false. cbv [with_sck_period sck_period]. lia.
    - destruct (Z.gtb_spec v_usec 250) as [H2 | H2];
        cbv [with_sck_period sck_period]; lia. }
  rewrite Hsck. cbn. rewrite Hval. unfold SCK_MIN, SCK_MAX. lia.
Qed.

(** C10: when the part has no template for the programming-enable
    operation, [usbtiny_avr_op] returns -1, the [!] test of
    [usbtiny_initialize] takes that for a response, and the
    initialization returns 0 after the power-up notification and the
    delay alone: no SPI exchange was made. *)
Theorem C10_initialize_without_template_returns_0
        (st : state) (pgm : PROGRAMMER) (p : AVRPART) (res : list byte_t) :
  op p AVR_OP_PGM_ENABLE = None ->
  fst (fst (usbtiny_avr_op st p AVR_OP_PGM_ENABLE res)) = -1 /\
  fst (usbtiny_initialize st pgm p res) = 0 /\
  (exists sck n,
     trace (snd (usbtiny_initialize st pgm p res)) =
     trace st ++
     [EvUsb (mk_msg USB_ENDPOINT_IN USBTINY_POWERUP sck RESET_LOW []
                    0 USB_TIMEOUT) n;
      EvSleep 50000]) /\
  count is_spi_exchange (trace (snd (usbtiny_initialize st pgm p res))) =
  count is_spi_exchange (trace st).
Proof.
  intros Hop.
  assert (Hrun : exists sck n,
             usbtiny_initialize st pgm p res =
             (0, usleep
                   (usbtiny_set_chunk_size
                      (log (EvUsb (mk_msg USB_ENDPOINT_IN USBTINY_POWERUP sck
                                          RESET_LOW [] 0 USB_TIMEOUT) n)
                           (with_sck_period sck st)) sck) 50000)).
  { unfold usbtiny_initialize, usbtiny_avr_op. rewrite Hop.
    change (-1 =? 0) with false. cbn iota.
    destruct (bitclock_positive pgm).
    - unfold usbtiny_set_sck_period. cbn [snd].
      destruct (v_clamp_cases (bitclock_usec pgm)) as (sck & Hsck).
      exists sck. eexists. rewrite Hsck. reflexivity.
    - exists SCK_DEFAULT. eexists. reflexivity. }
  destruct Hrun as (sck & n & Hrun).
  split; [ | split; [ | split]].
  - unfold usbtiny_avr_op. rewrite Hop. reflexivity.
  - rewrite Hrun. reflexivity.
  - exists sck, n. rewrite Hrun. cbn. rewrite <- app_assoc. reflexivity.
  - rewrite Hrun. cbn [snd]. unfold usleep, usbtiny_set_chunk_size.
    rewrite count_log. cbn [with_chunk_size trace].
    rewrite count_log. cbn. lia.
Qed.

(** *** The byte cache *)

Lemma read_req_is_read (m : AVRMEM) (msg : usb_msg) (n : Z) :
  msg_req msg = read_req m -> is_read_exchange (EvUsb msg n) = true.
Proof.
  unfold read_req, is_read_exchange. intros ->.
  destruct (is_flash m); reflexivity.
Qed.

Lemma cache_miss_test (st : state) (m : AVRMEM) (addr : Z) :
  (negb (match cache_mem st with
         | Some c => Nat.eqb c (mem_id m)
         | None => false
         end)
   || negb (cache_base st =? base_of st addr)) = false <->
  cache_holds st m addr.
Proof.
  unfold cache_holds. rewrite orb_false_iff, !negb_false_iff, Z.eqb_eq.
  destruct (cache_mem st) as [c | ].
  - rewrite Nat.eqb_eq. split; intros [H1 H2]; split; congruence.
  - split; intros [H1 H2]; discriminate.
Qed.

(** A hit: no exchange, the state is untouched. *)
Lemma usbtiny_read_byte_hit (st : state) (m : AVRMEM) (addr : Z) :
  cache_disable st <= 0 ->
  cacheable m = true ->
  cache_holds st m addr ->
  usbtiny_read_byte st m addr =
  (0, Some (nth (Z.to_nat (addr - base_of st addr)) (cache_buf st) 0), st).
Proof.
  intros Hen Hc Hh. unfold usbtiny_read_byte.
  destruct (Z.gtb_spec (cache_disable st) 0); [lia | ].
  unfold cacheable in Hc. rewrite <- negb_orb, Hc. cbn [negb].
  fold (base_of st addr).
  apply cache_miss_test in Hh. rewrite Hh. reflexivity.
Qed.

(** A miss: exactly one exchange, the refill; its status decides. *)
Lemma usbtiny_read_byte_miss (st : state) (m : AVRMEM) (addr : Z) :
  cache_disable st <= 0 ->
  cacheable m = true ->
  ~ cache_holds st m addr ->
  exists msg n v st',
    msg_req msg = read_req m /\
    snd (refill st m addr) = log (EvUsb msg n) st /\
    trace st' = trace st ++ [EvUsb msg n] /\
    chunk_size st' = chunk_size st /\
    cache_disable st' = cache_disable st /\
    ((fst (fst (refill st m addr)) = 0 /\
      usbtiny_read_byte st m addr = (0, Some v, st') /\
      cache_holds st' m addr)
     \/
     (fst (fst (refill st m addr)) <> 0 /\
      usbtiny_read_byte st m addr = (-1, None, st') /\
      cache_mem st' = None)).
Proof.
  intros Hen Hc Hm. unfold usbtiny_read_byte, refill.
  destruct (Z.gtb_spec (cache_disable st) 0); [lia | ].
  unfold cacheable in Hc. rewrite <- negb_orb, Hc. cbn [negb].
  fold (base_of st addr) (read_req m) (refill_size st m).
  destruct (negb _ || negb _) eqn:Etest;
    [ | apply cache_miss_test in Etest; contradiction ].
  destruct (usb_in_exchange st (read_req m) 0
              (int_of_ulong (base_of st addr)) (refill_size st m)
              (32 * sck_period st))
    as (msg & Hreq & _ & _ & _ & Hin).
  cbn zeta in Hin. rewrite Hin.
  exists msg, (reply_n (device (trace st) msg)).
  destruct (reply_n (device (trace st) msg) =? refill_size st m);
    cbn [negb Z.eqb fst snd].
  - do 2 eexists.
    split; [exact Hreq | ]. split; [reflexivity | ].
    split; [ | split; [ | split; [ | left; split; [reflexivity | ]]]].
    4: split; [reflexivity | split; reflexivity].
    all: reflexivity.
  - exists 0. eexists.
    split; [exact Hreq | ]. split; [reflexivity | ].
    split; [ | split; [ | split; [ | right; split; [discriminate | ]]]].
    4: split; reflexivity.
    all: reflexivity.
Qed.

(** What a read of a cacheable region with the cache enabled and not
    holding the address adds to the trace. *)
Lemma usbtiny_read_byte_miss_trace (st : state) (m : AVRMEM) (addr : Z) :
  cache_disable st <= 0 ->
  cacheable m = true ->
  ~ cache_holds st m addr ->
  (exists msg n,
     msg_req msg = read_req m /\
     trace (snd (usbtiny_read_byte st m addr)) = trace st ++ [EvUsb msg n]) /\
  count is_read_exchange (trace (snd (usbtiny_read_byte st m addr))) =
  count is_read_exchange (trace st) + 1.
Proof.
  intros Hen Hc Hm.
  destruct (usbtiny_read_byte_miss st m addr Hen Hc Hm)
    as (msg & n & v & st' & Hreq & _ & Htr & _ & _ & Hcase).
  assert (Hst : snd (usbtiny_read_byte st m addr) = st')
    by (destruct Hcase as [(_ & -> & _) | (_ & -> & _)]; reflexivity).
  rewrite Hst, Htr. split.
  - exists msg, n. split; [exact Hreq | reflexivity].
  - rewrite count_app. unfold count at 2. cbn [filter].
    rewrite (read_req_is_read m msg n Hreq). reflexivity.
Qed.

Lemma no_cache_holds_nothing (st : state) (m : AVRMEM) (addr : Z) :
  cache_mem st = None -> ~ cache_holds st m addr.
Proof. intros Hn [Hc _]. congruence. Qed.



(** C8: when the refill of a miss fails, [usbtiny_read_byte] returns -1
    without storing a byte and leaves [cache_mem] null; the cache then
    holds no address of any region, and the next read of a cacheable
    region makes a refill exchange again. *)
Theorem C8_failed_refill_invalidates_cache
        (st : state) (m m' : AVRMEM) (addr addr' : Z) :
  cache_disable st <= 0 ->
  cacheable m = true ->
  cacheable m' = true ->
  ~ cache_holds st m addr ->
  fst (fst (refill st m addr)) <> 0 ->
  let r := usbtiny_read_byte st m addr in
  fst (fst r) = -1 /\
  snd (fst r) = None /\
  cache_mem (snd r) = None /\
  ~ cache_holds (snd r) m' addr' /\
  count is_read_exchange (trace (snd (usbtiny_read_byte (snd r) m' addr'))) =
  count is_read_exchange (trace (snd r)) + 1.
Proof.
  intros Hen Hc Hc' Hm Hfail r.
  destruct (usbtiny_read_byte_miss st m addr Hen Hc Hm)
    as (msg & n & v & st' & _ & _ & _ & _ & Hcd & Hcase).
  destruct Hcase as [(Hok & _) | (_ & Hr & Hnone)]; [contradiction | ].
  subst r. rewrite Hr. cbn [fst snd].
  split; [reflexivity | ]. split; [reflexivity | ]. split; [exact Hnone | ].
  pose proof (no_cache_holds_nothing st' m' addr' Hnone) as Hm'.
  split; [exact Hm' | ].
  apply usbtiny_read_byte_miss_trace;
    [rewrite Hcd; exact Hen | exact Hc' | exact Hm'].
Qed.

(** *** The memory access engine *)

(** One iteration of the loop of [usbtiny_paged_load]: one exchange for
    [load_chunk] bytes at offset [i], whose status is dropped, and the
    progress report. *)
Lemma paged_load_loop_iter (fuel : nat) (req : usb_request) (n_bytes i : Z)
      (m : AVRMEM) (st : state) :
  i < n_bytes ->
  exists msg m',
    msg_req msg = req /\ msg_index msg = i /\
    msg_len msg = load_chunk st n_bytes i /\
    paged_load_loop (S fuel) req n_bytes i m st =
    paged_load_loop fuel req n_bytes (i + load_chunk st n_bytes i) m'
      (report_progress
         (log (EvUsb msg (reply_n (device (trace st) msg))) st)
         (i + load_chunk st n_bytes i) n_bytes).
Proof.
  intros Hlt. cbn [paged_load_loop].
  destruct (Z.ltb_spec i n_bytes); [ | lia].
  fold (load_chunk st n_bytes i).
  destruct (usb_in_exchange st req 0 i (load_chunk st n_bytes i)
              (32 * sck_period st))
    as (msg & Hreq & Hidx & Hlen & _ & Hin).
  cbn zeta in Hin. rewrite Hin.
  exists msg. eexists. repeat (split; [eassumption | ]). reflexivity.
Qed.

Lemma load_chunk_bounds (st : state) (n_bytes i : Z) :
  0 < chunk_size st -> i < n_bytes ->
  0 < load_chunk st n_bytes i <= n_bytes - i.
Proof.
  intros Hc Hlt. unfold load_chunk.
  destruct (Z.gtb_spec (chunk_size st) (n_bytes - i)); lia.
Qed.

(** The loop ends within [n_bytes - i] iterations when [chunk_size] is
    positive, and the lengths [g] of its exchanges add up to [n_bytes - i]
    whenever [g] gives each exchange the length that was asked for. *)
Lemma paged_load_loop_total (g : event -> Z) (req : usb_request)
      (n_bytes : Z) :
  (forall tr msg, g (EvUsb msg (reply_n (device tr msg))) = msg_len msg) ->
  req = USBTINY_FLASH_READ \/ req = USBTINY_EEPROM_READ ->
  forall (fuel : nat) (i : Z) (m : AVRMEM) (st : state),
    0 < chunk_size st ->
    i <= n_bytes ->
    (Z.to_nat (n_bytes - i) <= fuel)%nat ->
    exists m' st',
      paged_load_loop fuel req n_bytes i m st = Some (m', st') /\
      chunk_size st' = chunk_size st /\
      total g is_read_exchange (trace st') =
      total g is_read_exchange (trace st) + (n_bytes - i).
Proof.
  intros Hg Hreq fuel.
  induction fuel as [| fuel IH]; intros i m st Hc Hle Hfuel.
  - assert (i = n_bytes) by lia. subst i.
    exists m, st. cbn [paged_load_loop]. rewrite Z.ltb_irrefl.
    split; [reflexivity | split; [reflexivity | lia]].
  - destruct (Z.ltb_spec i n_bytes) as [Hlt | Hge].
    + destruct (paged_load_loop_iter fuel req n_bytes i m st Hlt)
        as (msg & m1 & Hmreq & _ & Hlen & Hstep).
      pose proof (load_chunk_bounds st n_bytes i Hc Hlt) as Hb.
      rewrite Hstep.
      set (st2 := report_progress _ _ _) in *.
      destruct (IH (i + load_chunk st n_bytes i) m1 st2)
        as (m' & st' & Hrun & Hcs & Htot);
        [exact Hc | lia | lia | ].
      exists m', st'. split; [exact Hrun | ]. split; [exact Hcs | ].
      rewrite Htot. subst st2. unfold report_progress.
      rewrite !total_log. cbn [is_read_exchange].
      rewrite Hg, Hlen, Hmreq.
      destruct Hreq as [-> | ->]; lia.
    + assert (i = n_bytes) by lia. subst i.
      exists m, st. cbn [paged_load_loop]. rewrite Z.ltb_irrefl.
      split; [reflexivity | split; [reflexivity | lia]].
Qed.

(** One iteration of the loop of [usbtiny_paged_write]: one exchange for
    [write_chunk] bytes at offset [i], whose status is dropped, the page
    commit at [i] when it is due, and the progress report. *)
Lemma paged_write_loop_iter (fuel : nat) (req : usb_request)
      (delay page_size n_bytes i : Z) (m : AVRMEM) (st : state) :
  i < n_bytes ->
  exists msg,
    msg_req msg = req /\ msg_index msg = i /\
    msg_len msg = write_chunk st m page_size n_bytes i /\
    let next := i + write_chunk st m page_size n_bytes i in
    let st1 := log (EvUsb msg (reply_n (device (trace st) msg))) st in
    let st2 := if commit_due m page_size n_bytes next
               then avr_write_page st1 m i else st1 in
    paged_write_loop (S fuel) req delay page_size n_bytes i m st =
    paged_write_loop fuel req delay page_size n_bytes next m
      (report_progress st2 next n_bytes).
Proof.
  intros Hlt. cbn [paged_write_loop].
  destruct (Z.ltb_spec i n_bytes); [ | lia].
  fold (write_cap st m page_size).
  fold (write_chunk st m page_size n_bytes i).
  destruct (usb_out_exchange st req delay i
              (slice (buf m) i (write_chunk st m page_size n_bytes i))
              (write_chunk st m page_size n_bytes i)
              (32 * sck_period st + delay))
    as (msg & Hreq & Hidx & Hlen & _ & Hout).
  cbn zeta in Hout. rewrite Hout.
  exists msg. repeat (split; [eassumption | ]). reflexivity.
Qed.

Lemma write_cap_pos (st : state) (m : AVRMEM) (page_size : Z) :
  0 < chunk_size st ->
  (paged m <> 0 -> 0 < page_size) ->
  0 < write_cap st m page_size.
Proof.
  intros Hc Hp. unfold write_cap.
  destruct (Z.eqb_spec (paged m) 0); cbn [negb andb]; [lia | ].
  destruct (Z.gtb_spec (chunk_size st) page_size); [auto | lia].
Qed.

Lemma write_chunk_bounds (st : state) (m : AVRMEM) (page_size n_bytes i : Z) :
  0 < write_cap st m page_size -> i < n_bytes ->
  0 < write_chunk st m page_size n_bytes i <= n_bytes - i.
Proof.
  intros Hc Hlt. unfold write_chunk.
  destruct (Z.gtb_spec (write_cap st m page_size) (n_bytes - i)); lia.
Qed.

Lemma write_cap_chunk_size (st st' : state) (m : AVRMEM) (page_size : Z) :
  chunk_size st' = chunk_size st ->
  write_cap st' m page_size = write_cap st m page_size.
Proof. intros H. unfold write_cap. rewrite H. reflexivity. Qed.

(** The state after one iteration keeps the chunk size. *)
Lemma paged_write_iter_chunk_size (st : state) (m : AVRMEM) (e : event)
      (b : bool) (i next n_bytes : Z) :
  chunk_size
    (report_progress (if b then avr_write_page (log e st) m i else log e st)
                     next n_bytes) = chunk_size st.
Proof. destruct b; reflexivity. Qed.

(** Arithmetic of the page commits. *)

Lemma div_between (x P q : Z) :
  0 < P -> q * P <= x < (q + 1) * P -> x / P = q.
Proof.
  intros HP Hx. symmetry.
  apply Z.div_unique with (r := x - q * P); lia.
Qed.

Lemma ceil_div_spec (n P : Z) :
  0 < P -> (ceil_div n P - 1) * P < n <= ceil_div n P * P.
Proof.
  intros HP. unfold ceil_div.
  pose proof (Z.mul_div_le (n + P - 1) P HP).
  pose proof (Z.mul_succ_div_gt (n + P - 1) P HP).
  lia.
Qed.

Lemma commit_arith (P e n i : Z) :
  0 < P -> 0 < e -> (e | P) -> (e | i) -> 0 <= i < n ->
  let next := i + (if e >? n - i then n - i else e) in
  (next < n -> (e | next)) /\
  (if (Z.rem next P =? 0) || (next =? n) then 1 else 0)
  + commits_left P n next = commits_left P n i.
Proof.
  intros HP He [q Hq] [k Hk] Hi next.
  set (a := i / P).
  assert (Ha : a * P <= i < (a + 1) * P).
  { pose proof (Z.mul_div_le i P HP). pose proof (Z.mul_succ_div_gt i P HP).
    subst a. lia. }
  assert (Hk1 : k < (a + 1) * q) by nia.
  assert (Hie : i + e <= (a + 1) * P) by nia.
  assert (Hnext : i < next <= n /\ next <= i + e)
    by (subst next; destruct (Z.gtb_spec e (n - i)); lia).
  assert (Hci : commits_left P n i = ceil_div n P - a).
  { unfold commits_left. destruct (Z.ltb_spec i n); [reflexivity | lia]. }
  rewrite Hci. split.
  - intros Hlt. assert (next = i + e)
      by (subst next; destruct (Z.gtb_spec e (n - i)); lia).
    exists (k + 1). lia.
  - destruct (Z.eq_dec next n) as [En | En].
    + rewrite En, Z.eqb_refl, orb_true_r.
      unfold commits_left. rewrite Z.ltb_irrefl.
      assert (ceil_div n P = a + 1)
        by (unfold ceil_div; apply div_between; lia).
      lia.
    + assert (Hne : next = i + e)
        by (subst next; destruct (Z.gtb_spec e (n - i)); lia).
      destruct (Z.eqb_spec next n); [contradiction | ].
      rewrite orb_false_r.
      rewrite Z.rem_mod_nonneg by lia.
      unfold commits_left. destruct (Z.ltb_spec next n); [ | lia].
      destruct (Z.eq_dec next ((a + 1) * P)) as [Eb | Eb].
      * rewrite Eb, Z.mod_mul, Z.div_mul by lia.
        change (0 =? 0) with true. cbn iota. lia.
      * assert (Hd : next / P = a) by (apply div_between; lia).
        rewrite Hd.
        assert (Hmod : next mod P <> 0)
          by (rewrite Z.mod_eq, Hd by lia; lia).
        destruct (Z.eqb_spec (next mod P) 0); [contradiction | lia].
Qed.

(** The loop of [usbtiny_paged_write] ends within [n_bytes - i] iterations
    when the chunk size (and the page size of a paged region) is positive;
    the lengths of its exchanges add up to [n_bytes - i], and a region that
    is not paged sees no page commit. *)
Lemma paged_write_loop_total (g : event -> Z) (req : usb_request)
      (delay page_size n_bytes : Z) (m : AVRMEM) :
  (forall tr msg, g (EvUsb msg (reply_n (device tr msg))) = msg_len msg) ->
  req = USBTINY_FLASH_WRITE \/ req = USBTINY_EEPROM_WRITE ->
  (paged m <> 0 -> 0 < page_size) ->
  forall (fuel : nat) (i : Z) (st : state),
    0 < chunk_size st ->
    i <= n_bytes ->
    (Z.to_nat (n_bytes - i) <= fuel)%nat ->
    exists st',
      paged_write_loop fuel req delay page_size n_bytes i m st = Some st' /\
      chunk_size st' = chunk_size st /\
      total g is_write_exchange (trace st') =
      total g is_write_exchange (trace st) + (n_bytes - i) /\
      (paged m = 0 ->
       count is_write_page (trace st') = count is_write_page (trace st)).
Proof.
  intros Hg Hreq Hps fuel.
  induction fuel as [| fuel IH]; intros i st Hc Hle Hfuel.
  - assert (i = n_bytes) by lia. subst i.
    exists st. cbn [paged_write_loop]. rewrite Z.ltb_irrefl.
    repeat split; try reflexivity; lia.
  - destruct (Z.ltb_spec i n_bytes) as [Hlt | Hge].
    + destruct (paged_write_loop_iter fuel req delay page_size n_bytes i m st
                                       Hlt)
        as (msg & Hmreq & _ & Hlen & Hstep).
      cbn zeta in Hstep. rewrite Hstep.
      pose proof (write_chunk_bounds st m page_size n_bytes i
                    (write_cap_pos st m page_size Hc Hps) Hlt) as Hb.
      set (next := i + write_chunk st m page_size n_bytes i) in *.
      set (e := EvUsb msg (reply_n (device (trace st) msg))) in *.
      set (st2 := report_progress _ next n_bytes) in *.
      assert (Hcs2 : chunk_size st2 = chunk_size st)
        by (subst st2; apply paged_write_iter_chunk_size).
      destruct (IH next st2) as (st' & Hrun & Hcs & Htot & Hcnt);
        [lia | lia | lia | ].
      exists st'. split; [exact Hrun | ]. split; [lia | ].
      assert (He : (if is_write_exchange e then g e else 0) =
                   write_chunk st m page_size n_bytes i).
      { subst e. cbn [is_write_exchange]. rewrite Hg, Hlen, Hmreq.
        destruct Hreq as [-> | ->]; reflexivity. }
      split.
      * rewrite Htot. subst st2. unfold report_progress, avr_write_page.
        destruct (commit_due m page_size n_bytes next);
          rewrite !total_log, He; cbn [is_write_exchange]; lia.
      * intros Hnp. rewrite (Hcnt Hnp). subst st2.
        unfold commit_due. rewrite Hnp. cbn [Z.eqb negb andb].
        unfold report_progress. rewrite !count_log.
        subst e. cbn [is_write_page]. lia.
    + assert (i = n_bytes) by lia. subst i.
      exists st. cbn [paged_write_loop]. rewrite Z.ltb_irrefl.
      repeat split; try reflexivity; lia.
Qed.

(** On a paged region whose page size the effective chunk [e] divides, the
    loop commits the pages that are left: one at each page boundary and
    one at the end. *)
Lemma paged_write_loop_commits (req : usb_request)
      (delay page_size n_bytes e : Z) (m : AVRMEM) :
  paged m <> 0 ->
  0 < page_size -> 0 < e -> (e | page_size) ->
  forall (fuel : nat) (i : Z) (st : state),
    write_cap st m page_size = e ->
    (i < n_bytes -> (e | i)) ->
    0 <= i <= n_bytes ->
    (Z.to_nat (n_bytes - i) <= fuel)%nat ->
    exists st',
      paged_write_loop fuel req delay page_size n_bytes i m st = Some st' /\
      count is_write_page (trace st') =
      count is_write_page (trace st) + commits_left page_size n_bytes i.
Proof.
  intros Hp HP He Hdiv fuel.
  induction fuel as [| fuel IH]; intros i st Hcap Hi Hle Hfuel.
  - assert (i = n_bytes) by lia. subst i.
    exists st. cbn [paged_write_loop]. unfold commits_left.
    rewrite Z.ltb_irrefl. split; [reflexivity | lia].
  - destruct (Z.ltb_spec i n_bytes) as [Hlt | Hge].
    + destruct (paged_write_loop_iter fuel req delay page_size n_bytes i m st
                                       Hlt)
        as (msg & _ & _ & _ & Hstep).
      cbn zeta in Hstep. rewrite Hstep.
      assert (Hchunk : write_chunk st m page_size n_bytes i =
                       if e >? n_bytes - i then n_bytes - i else e)
        by (unfold write_chunk; rewrite Hcap; reflexivity).
      rewrite Hchunk in *.
      destruct (commit_arith page_size e n_bytes i HP He Hdiv (Hi Hlt)
                             (conj (proj1 Hle) Hlt)) as [Hinv Hstepc].
      cbn zeta in Hinv, Hstepc.
      set (next := i + (if e >? n_bytes - i then n_bytes - i else e)) in *.
      assert (Hb : i < next <= n_bytes)
        by (subst next; destruct (Z.gtb_spec e (n_bytes - i)); lia).
      set (ev := EvUsb msg (reply_n (device (trace st) msg))) in *.
      set (st2 := report_progress _ next n_bytes) in *.
      assert (Hcs2 : chunk_size st2 = chunk_size st)
        by (subst st2; apply paged_write_iter_chunk_size).
      destruct (IH next st2) as (st' & Hrun & Hcnt);
        [ rewrite (write_cap_chunk_size st st2 m page_size Hcs2); exact Hcap
        | exact Hinv | lia | lia | ].
      exists st'. split; [exact Hrun | ].
      rewrite Hcnt, <- Hstepc. subst st2.
      unfold commit_due.
      destruct (Z.eqb_spec (paged m) 0); [contradiction | ].
      cbn [negb andb]. unfold report_progress, avr_write_page.
      destruct ((Z.rem next page_size =? 0) || (next =? n_bytes));
        rewrite !count_log; subst ev; cbn [is_write_page]; lia.
    + assert (i = n_bytes) by lia. subst i.
      exists st. cbn [paged_write_loop]. unfold commits_left.
      rewrite Z.ltb_irrefl. split; [reflexivity | lia].
Qed.

Lemma requested_length :
  forall tr msg, requested (EvUsb msg (reply_n (device tr msg))) = msg_len msg.
Proof. reflexivity. Qed.

Lemma moved_length :
  (forall tr msg, reply_n (device tr msg) = msg_len msg) ->
  forall tr msg, moved (EvUsb msg (reply_n (device tr msg))) = msg_len msg.
Proof. intros H tr msg. cbn [moved]. apply H. Qed.

Lemma usbtiny_paged_write_loop (fuel : nat) (st : state) (m : AVRMEM)
      (page_size n_bytes : Z) :
  usbtiny_paged_write fuel st m page_size n_bytes =
  match paged_write_loop fuel
          (if is_flash m then USBTINY_FLASH_WRITE else USBTINY_EEPROM_WRITE)
          (if paged m =? 0 then max_write_delay m else 0)
          page_size n_bytes 0 m (paged_write_entry st m) with
  | Some st' => Some (n_bytes, st')
  | None => None
  end.
Proof.
  unfold usbtiny_paged_write, paged_write_entry.
  destruct (paged m =? 0); reflexivity.
Qed.

Lemma paged_write_entry_facts (st : state) (m : AVRMEM) :
  chunk_size (paged_write_entry st m) = chunk_size st /\
  (forall g, total g is_write_exchange (trace (paged_write_entry st m)) =
             total g is_write_exchange (trace st)) /\
  count is_write_page (trace (paged_write_entry st m)) =
  count is_write_page (trace st).
Proof.
  unfold paged_write_entry. destruct (paged m =? 0).
  - unfold usb_control, usb_control_msg. cbn [snd].
    split; [reflexivity | ]. split.
    + intros g. rewrite total_log. cbn [is_write_exchange msg_req]. lia.
    + rewrite count_log. cbn [is_write_page]. lia.
  - split; [reflexivity | split; [reflexivity | reflexivity]].
Qed.

(** C9: for [n_bytes >= 0], with the positive chunk size that
    [usbtiny_set_chunk_size] leaves (and a positive page size for a paged
    region), [usbtiny_paged_load] and [usbtiny_paged_write] return
    [n_bytes] and the lengths of their chunks add up to [n_bytes]; when no
    exchange is short, so do the bytes moved. With [n_bytes = 0] neither
    loop runs an iteration and both return 0. *)
Theorem C9_paged_transfers_cover_n_bytes
        (fuel : nat) (st : state) (m : AVRMEM) (page_size n_bytes : Z) :
  0 <= n_bytes ->
  0 < chunk_size st ->
  (paged m <> 0 -> 0 < page_size) ->
  (Z.to_nat n_bytes <= fuel)%nat ->
  (exists m' st',
     usbtiny_paged_load fuel st m page_size n_bytes = Some (n_bytes, m', st') /\
     total requested is_read_exchange (trace st') =
     total requested is_read_exchange (trace st) + n_bytes /\
     ((forall tr msg, reply_n (device tr msg) = msg_len msg) ->
      total moved is_read_exchange (trace st') =
      total moved is_read_exchange (trace st) + n_bytes)) /\
  (exists st',
     usbtiny_paged_write fuel st m page_size n_bytes = Some (n_bytes, st') /\
     total requested is_write_exchange (trace st') =
     total requested is_write_exchange (trace st) + n_bytes /\
     ((forall tr msg, reply_n (device tr msg) = msg_len msg) ->
      total moved is_write_exchange (trace st') =
      total moved is_write_exchange (trace st) + n_bytes)) /\
  (forall fuel0,
     usbtiny_paged_load fuel0 st m page_size 0 = Some (0, m, st)) /\
  (forall fuel0,
     usbtiny_paged_write fuel0 st m page_size 0 =
     Some (0, paged_write_entry st m)).
Proof.
  intros Hn Hc Hps Hfuel.
  split; [ | split; [ | split]].
  - unfold usbtiny_paged_load.
    set (req := if is_flash m then _ else _).
    assert (Hreq : req = USBTINY_FLASH_READ \/ req = USBTINY_EEPROM_READ)
      by (subst req; destruct (is_flash m); auto).
    destruct (paged_load_loop_total requested req n_bytes requested_length
                Hreq fuel 0 m st Hc Hn)
      as (m' & st' & Hrun & _ & Htot);
      [rewrite Z.sub_0_r; exact Hfuel | ].
    exists m', st'. rewrite Hrun. split; [reflexivity | ].
    split; [lia | ].
    intros Hfull.
    destruct (paged_load_loop_total moved req n_bytes (moved_length Hfull)
                Hreq fuel 0 m st Hc Hn)
      as (m2 & st2 & Hrun2 & _ & Htot2);
      [rewrite Z.sub_0_r; exact Hfuel | ].
    rewrite Hrun in Hrun2. injection Hrun2 as _ <-. lia.
  - rewrite usbtiny_paged_write_loop.
    set (req := if is_flash m then _ else _).
    set (delay := if paged m =? 0 then _ else _).
    assert (Hreq : req = USBTINY_FLASH_WRITE \/ req = USBTINY_EEPROM_WRITE)
      by (subst req; destruct (is_flash m); auto).
    destruct (paged_write_entry_facts st m) as (Hce & Hte & _).
    assert (Hc' : 0 < chunk_size (paged_write_entry st m)) by lia.
    destruct (paged_write_loop_total requested req delay page_size n_bytes m
                requested_length Hreq Hps fuel 0 _ Hc' Hn)
      as (st' & Hrun & _ & Htot & _);
      [rewrite Z.sub_0_r; exact Hfuel | ].
    exists st'. rewrite Hrun. split; [reflexivity | ].
    split; [rewrite Htot, Hte; lia | ].
    intros Hfull.
    destruct (paged_write_loop_total moved req delay page_size n_bytes m
                (moved_length Hfull) Hreq Hps fuel 0 _ Hc' Hn)
      as (st2 & Hrun2 & _ & Htot2 & _);
      [rewrite Z.sub_0_r; exact Hfuel | ].
    rewrite Hrun in Hrun2. injection Hrun2 as <-.
    rewrite Htot2, Hte. lia.
  - intros fuel0. unfold usbtiny_paged_load.
    destruct fuel0; reflexivity.
  - intros fuel0. rewrite usbtiny_paged_write_loop.
    destruct fuel0; reflexivity.
Qed.

(** C4: [usbtiny_paged_write] calls [avr_write_page] [ceil(n_bytes /
    page_size)] times on a paged region whose page size is a multiple of
    the chunk cap (the smaller of [chunk_size] and [page_size]), and never
    on a region that is not paged. Writing 300 bytes to a paged region with
    [page_size] 64 and [chunk_size] 128 sends chunks of 64, 64, 64, 64 and
    44 bytes at offsets 0, 64, 128, 192 and 256 and commits at these
    offsets. *)
Theorem C4_page_commit_count
        (fuel : nat) (st : state) (m : AVRMEM) (page_size n_bytes : Z) :
  0 <= n_bytes ->
  0 < chunk_size st ->
  (paged m <> 0 ->
   0 < page_size /\ (write_cap st m page_size | page_size)) ->
  (Z.to_nat n_bytes <= fuel)%nat ->
  (exists st',
     usbtiny_paged_write fuel st m page_size n_bytes = Some (n_bytes, st') /\
     count is_write_page (trace st') =
     count is_write_page (trace st)
     + (if paged m =? 0 then 0 else ceil_div n_bytes page_size)) /\
  (paged m <> 0 ->
   (ceil_div n_bytes page_size - 1) * page_size < n_bytes
   <= ceil_div n_bytes page_size * page_size) /\
  (exists st',
     usbtiny_paged_write 5 (session 10 128) (region 1 "flash" 1 300) 64 300 =
     Some (300, st') /\
     chunks is_write_exchange (trace st') =
     [(0, 64); (64, 64); (128, 64); (192, 64); (256, 44)] /\
     commits (trace st') = [0; 64; 128; 192; 256]).
Proof.
  intros Hn Hc Hpg Hfuel.
  split; [ | split].
  - rewrite usbtiny_paged_write_loop.
    set (req := if is_flash m then _ else _).
    set (delay := if paged m =? 0 then _ else _).
    destruct (paged_write_entry_facts st m) as (Hce & _ & Hpe).
    destruct (Z.eqb_spec (paged m) 0) as [Hz | Hnz].
    + assert (Hreq : req = USBTINY_FLASH_WRITE \/ req = USBTINY_EEPROM_WRITE)
        by (subst req; destruct (is_flash m); auto).
      assert (Hc' : 0 < chunk_size (paged_write_entry st m)) by lia.
      destruct (paged_write_loop_total requested req delay page_size n_bytes m
                  requested_length Hreq (fun H => False_ind _ (H Hz))
                  fuel 0 _ Hc' Hn)
        as (st' & Hrun & _ & _ & Hcnt);
        [rewrite Z.sub_0_r; exact Hfuel | ].
      exists st'. rewrite Hrun. split; [reflexivity | ].
      rewrite (Hcnt Hz), Hpe. lia.
    + destruct (Hpg Hnz) as [HP Hdiv].
      assert (Hcap : write_cap (paged_write_entry st m) m page_size =
                     write_cap st m page_size)
        by (apply write_cap_chunk_size; exact Hce).
      assert (He : 0 < write_cap st m page_size)
        by (apply write_cap_pos; [exact Hc | intros _; exact HP]).
      destruct (paged_write_loop_commits req delay page_size n_bytes
                  (write_cap st m page_size) m Hnz HP He Hdiv
                  fuel 0 (paged_write_entry st m) Hcap
                  (fun _ => Z.divide_0_r _) (conj (Z.le_refl 0) Hn))
        as (st' & Hrun & Hcnt);
        [rewrite Z.sub_0_r; exact Hfuel | ].
      exists st'. rewrite Hrun. split; [reflexivity | ].
      rewrite Hcnt, Hpe. unfold commits_left.
      destruct (Z.ltb_spec 0 n_bytes) as [Hpos | Hzero].
      * rewrite Z.div_0_l by lia. lia.
      * assert (n_bytes = 0) by lia. subst n_bytes.
        unfold ceil_div. rewrite Z.div_small by lia. lia.
  - intros Hnz. apply ceil_div_spec. apply (Hpg Hnz).
  - eexists. split; [vm_compute; reflexivity | ].
    split; vm_compute; reflexivity.
Qed.

(** ** Further properties of the driver *)

(** *** Initialization and chip erase *)

(** A power-up notification that raises the reset line. *)
Definition is_reset_high (e : event) : bool :=
  match e with
  | EvUsb m _ =>
      match msg_req m with
      | USBTINY_POWERUP => msg_index m =? RESET_HIGH
      | _ => false
      end
  | _ => false
  end.

(** The first statement of [usbtiny_initialize]: the clock period and the
    chunk size are set, from the bit clock or from the default. *)
Definition timing_setup (st : state) (pgm : PROGRAMMER) : state :=
  if bitclock_positive pgm
  then snd (usbtiny_set_sck_period st (bitclock_usec pgm))
  else
    let st := with_sck_period SCK_DEFAULT st in
    let st := usb_control st USBTINY_POWERUP (sck_period st) RESET_LOW in
    usbtiny_set_chunk_size st (sck_period st).

(** What [usbtiny_avr_op] leaves: the state itself when the template is
    missing, else the state with the cache invalid and one SPI exchange
    more; the status is then 0 or 1. *)
Lemma usbtiny_avr_op_cases (st : state) (p : AVRPART) (o : Z)
      (res : list byte_t) :
  (op p o = None /\ usbtiny_avr_op st p o res = (-1, res, st)) \/
  (exists t msg n r res',
     op p o = Some t /\
     msg_req msg = USBTINY_SPI /\ (r = 0 \/ r = 1) /\
     usbtiny_avr_op st p o res =
     (r, res', log (EvUsb msg n) (with_cache_mem None st)) /\
     usbtiny_cmd st (avr_set_bits t (repeat 0 4%nat)) res =
     (r, res', log (EvUsb msg n) (with_cache_mem None st))).
Proof.
  unfold usbtiny_avr_op. destruct (op p o) as [t | ] eqn:Hop.
  - right.
    destruct (usbtiny_cmd_exchange st (avr_set_bits t (repeat 0 4%nat)) res)
      as (msg & res' & Hreq & _ & Hcmd).
    cbn zeta in Hcmd.
    exists t, msg, (reply_n (device (trace st) msg)).
    eexists. exists res'.
    split; [reflexivity | ]. split; [exact Hreq | ].
    split; [ | split; exact Hcmd].
    destruct (_ && _); auto.
  - left. split; reflexivity.
Qed.

Lemma timing_setup_facts (st : state) (pgm : PROGRAMMER) :
  let st' := timing_setup st pgm in
  sck_period st' =
  (if bitclock_positive pgm
   then Z.max SCK_MIN (Z.min SCK_MAX (bitclock_usec pgm))
   else SCK_DEFAULT) /\
  SCK_MIN <= sck_period st' <= SCK_MAX /\
  chunk_size st' = chunk_size_loop CHUNK_SIZE (sck_period st') /\
  cache_mem st' = cache_mem st /\
  cache_disable st' = cache_disable st /\
  count is_spi_exchange (trace st') = count is_spi_exchange (trace st) /\
  count is_reset_high (trace st') = count is_reset_high (trace st).
Proof.
  unfold timing_setup. destruct (bitclock_positive pgm).
  - destruct (usbtiny_set_sck_period_clamps st (bitclock_usec pgm))
      as (Hv & Hr & Hc).
    cbn zeta in Hv, Hr, Hc.
    split; [exact Hv | ]. split; [exact Hr | ]. split; [exact Hc | ].
    unfold usbtiny_set_sck_period. cbn [snd].
    destruct (v_clamp_cases (bitclock_usec pgm)) as (sck & Hsck).
    rewrite Hsck. unfold usbtiny_set_chunk_size, usb_control, usb_control_msg.
    cbn [snd with_chunk_size cache_mem cache_disable trace].
    rewrite !count_log. cbn. repeat split; lia.
  - cbn zeta. unfold usbtiny_set_chunk_size, usb_control, usb_control_msg.
    cbn [snd with_chunk_size with_sck_period sck_period chunk_size
             cache_mem cache_disable trace log].
    rewrite !count_app.
    split; [reflexivity | ]. split; [unfold SCK_MIN, SCK_DEFAULT, SCK_MAX; lia | ].
    split; [reflexivity | ]. split; [reflexivity | ]. split; [reflexivity | ].
    cbn. split; lia.
Qed.


(** The runs of [usbtiny_initialize], after the timing set-up and the
    50 ms delay: no template and no exchange; a first attempt that is
    answered; or a reset pulse, a 20 ms delay and a second attempt. *)
Lemma usbtiny_initialize_runs (st : state) (pgm : PROGRAMMER) (p : AVRPART)
      (res : list byte_t) :
  let st1 := usleep (timing_setup st pgm) 50000 in
  (op p AVR_OP_PGM_ENABLE = None /\
   usbtiny_initialize st pgm p res = (0, st1)) \/
  (exists msg1 n1 r1 res1,
     msg_req msg1 = USBTINY_SPI /\
     let s2 := log (EvUsb msg1 n1) (with_cache_mem None st1) in
     usbtiny_avr_op st1 p AVR_OP_PGM_ENABLE res = (r1, res1, s2) /\
     ((r1 = 1 /\ usbtiny_initialize st pgm p res = (0, s2)) \/
      (r1 = 0 /\
       exists k1 k2 msg2 n2 r2,
         msg_req msg2 = USBTINY_SPI /\ (r2 = 0 \/ r2 = 1) /\
         let up lvl := mk_msg USB_ENDPOINT_IN USBTINY_POWERUP
                              (sck_period st1) lvl [] 0 USB_TIMEOUT in
         let s3 := usleep (log (EvUsb (up RESET_LOW) k2)
                               (log (EvUsb (up RESET_HIGH) k1) s2)) 20000 in
         usbtiny_initialize st pgm p res =
         (if r2 =? 0 then -1 else 0,
          log (EvUsb msg2 n2) (with_cache_mem None s3))))).
Proof.
  intros st1.
  assert (Hinit : usbtiny_initialize st pgm p res =
                  let '(r, res, st) :=
                    usbtiny_avr_op st1 p AVR_OP_PGM_ENABLE res in
                  if r =? 0 then
                    let st := usb_control st USBTINY_POWERUP (sck_period st)
                                          RESET_HIGH in
                    let st := usb_control st USBTINY_POWERUP (sck_period st)
                                          RESET_LOW in
                    let st := usleep st 20000 in
                    let '(r, res, st) :=
                      usbtiny_avr_op st p AVR_OP_PGM_ENABLE res in
                    if r =? 0 then (-1, st) else (0, st)
                  else (0, st)) by reflexivity.
  rewrite Hinit. clear Hinit.
  destruct (usbtiny_avr_op_cases st1 p AVR_OP_PGM_ENABLE res)
    as [[Hop Hrun] | (t & msg1 & n1 & r1 & res1 & Hop & Hreq1 & Hr1 & Hrun & _)].
  - left. rewrite Hrun. split; [exact Hop | reflexivity].
  - right. exists msg1, n1, r1, res1. split; [exact Hreq1 | ].
    cbn zeta. split; [exact Hrun | ]. rewrite Hrun.
    destruct Hr1 as [-> | ->]; [right | left; split; reflexivity].
    split; [reflexivity | ]. change (0 =? 0) with true. cbn iota.
    set (s2 := log (EvUsb msg1 n1) (with_cache_mem None st1)).
    unfold usb_control at 2. unfold usb_control_msg at 1. cbn [snd].
    set (e1 := EvUsb _ _).
    unfold usb_control at 1. unfold usb_control_msg at 1. cbn [snd].
    set (e2 := EvUsb _ _).
    destruct (usbtiny_avr_op_cases (usleep (log e2 (log e1 s2)) 20000) p
                AVR_OP_PGM_ENABLE res1)
      as [[Hop2 _] | (t2 & msg2 & n2 & r2 & res2 & _ & Hreq2 & Hr2 & Hrun2 & _)];
      [congruence | ].
    rewrite Hrun2.
    eexists. eexists. exists msg2, n2, r2.
    split; [exact Hreq2 | ]. split; [exact Hr2 | ].
    subst e1 e2. cbn zeta.
    destruct Hr2 as [-> | ->]; reflexivity.
Qed.


Lemma chunk_size_loop_range (period : Z) :
  8 <= chunk_size_loop CHUNK_SIZE period <= 128.
Proof.
  rewrite chunk_size_loop_table.
  repeat match goal with
         | |- context [if ?b then _ else _] => destruct b
         end; lia.
Qed.

(** [usbtiny_initialize] keeps the timing of its set-up and the
    cache-disable counter. *)
Lemma usbtiny_initialize_frame (st : state) (pgm : PROGRAMMER) (p : AVRPART)
      (res : list byte_t) :
  sck_period (snd (usbtiny_initialize st pgm p res)) =
  sck_period (timing_setup st pgm) /\
  chunk_size (snd (usbtiny_initialize st pgm p res)) =
  chunk_size (timing_setup st pgm) /\
  cache_disable (snd (usbtiny_initialize st pgm p res)) = cache_disable st.
Proof.
  destruct (timing_setup_facts st pgm) as (_ & _ & _ & _ & Hd & _).
  cbn zeta in Hd. rewrite <- Hd.
  destruct (usbtiny_initialize_runs st pgm p res)
    as [[_ ->] | (msg1 & n1 & r1 & res1 & _ & _ & Hcase)].
  - repeat split.
  - cbn zeta in Hcase.
    destruct Hcase as [[_ ->] | (_ & k1 & k2 & msg2 & n2 & r2 & _ & _ & ->)];
      repeat split.
Qed.

(** X1: whatever the bit clock, the part and the adapter, and whatever it
    returns, [usbtiny_initialize] leaves a clock period in
    [SCK_MIN, SCK_MAX] (the clamped request, or [SCK_DEFAULT] without
    one), the chunk size derived from that period, between 8 and 128, and
    the cache-disable counter as it was. *)
Theorem X1_initialize_establishes_timing
        (st : state) (pgm : PROGRAMMER) (p : AVRPART) (res : list byte_t) :
  let st' := snd (usbtiny_initialize st pgm p res) in
  sck_period st' =
  (if bitclock_positive pgm
   then Z.max SCK_MIN (Z.min SCK_MAX (bitclock_usec pgm))
   else SCK_DEFAULT) /\
  SCK_MIN <= sck_period st' <= SCK_MAX /\
  chunk_size st' = chunk_size_loop CHUNK_SIZE (sck_period st') /\
  8 <= chunk_size st' <= 128 /\
  cache_disable st' = cache_disable st.
Proof.
  intros st'.
  destruct (timing_setup_facts st pgm) as (Hv & Hr & Hc & _ & Hd & _).
  cbn zeta in Hv, Hr, Hc, Hd.
  assert (Hst : sck_period st' = sck_period (timing_setup st pgm) /\
                chunk_size st' = chunk_size (timing_setup st pgm) /\
                cache_disable st' = cache_disable (timing_setup st pgm)).
  { subst st'.
    destruct (usbtiny_initialize_runs st pgm p res)
      as [[_ ->] | (msg1 & n1 & r1 & res1 & _ & _ & Hcase)].
    - repeat split.
    - cbn zeta in Hcase.
      destruct Hcase as [[_ ->] | (_ & k1 & k2 & msg2 & n2 & r2 & _ & _ & ->)];
        repeat split. }
  destruct Hst as (Hs1 & Hs2 & Hs3).
  rewrite Hs1, Hs2, Hs3.
  split; [exact Hv | ]. split; [exact Hr | ]. split; [exact Hc | ].
  split; [rewrite Hc; apply chunk_size_loop_range | exact Hd].
Qed.

(** X2: with a template for the programming-enable operation,
    [usbtiny_initialize] returns 0 or -1. When the first attempt is
    acknowledged it returns 0 after that one SPI exchange, without
    touching the reset line; otherwise it raises the reset line once,
    makes exactly one more attempt, and only then can it return -1. *)
Theorem X2_initialize_retries_once
        (st : state) (pgm : PROGRAMMER) (p : AVRPART) (res : list byte_t)
        (t : OPCODE) :
  op p AVR_OP_PGM_ENABLE = Some t ->
  let first :=
    fst (fst (usbtiny_avr_op (usleep (timing_setup st pgm) 50000) p
                             AVR_OP_PGM_ENABLE res)) in
  let rc := fst (usbtiny_initialize st pgm p res) in
  let st' := snd (usbtiny_initialize st pgm p res) in
  let spi := count is_spi_exchange (trace st')
             - count is_spi_exchange (trace st) in
  let pulses := count is_reset_high (trace st')
                - count is_reset_high (trace st) in
  (rc = 0 \/ rc = -1) /\
  (first = 1 -> rc = 0 /\ spi = 1 /\ pulses = 0) /\
  (first <> 1 -> spi = 2 /\ pulses = 1) /\
  (rc = -1 -> first = 0 /\ spi = 2).
Proof.
  intros Hop first rc st' spi pulses.
  destruct (timing_setup_facts st pgm) as (_ & _ & _ & _ & _ & Hspi & Hrh).
  cbn zeta in Hspi, Hrh.
  destruct (usbtiny_initialize_runs st pgm p res)
    as [[Hnone _] | (msg1 & n1 & r1 & res1 & Hreq1 & Hrun1 & Hcase)];
    [congruence | ].
  cbn zeta in Hrun1, Hcase.
  assert (Hfirst : first = r1) by (subst first; rewrite Hrun1; reflexivity).
  assert (Hs1 : is_spi_exchange (EvUsb msg1 n1) = true)
    by (cbn; rewrite Hreq1; reflexivity).
  assert (Hh1 : is_reset_high (EvUsb msg1 n1) = false)
    by (cbn; rewrite Hreq1; reflexivity).
  destruct Hcase as [[Hr1 Hinit] | (Hr1 & k1 & k2 & msg2 & n2 & r2 & Hreq2 & Hr2 & Hinit)].
  - assert (Hrc : rc = 0) by (subst rc; rewrite Hinit; reflexivity).
    assert (Hcnt : spi = 1 /\ pulses = 0).
    { subst spi pulses st'. rewrite Hinit. cbn [snd]. unfold usleep.
      rewrite !count_log. cbn [with_cache_mem trace]. rewrite !count_log.
      rewrite Hs1, Hh1, Hspi, Hrh. cbn. lia. }
    rewrite Hfirst, Hr1. repeat split; try tauto; try lia.
  - cbn zeta in Hinit.
    assert (Hs2 : is_spi_exchange (EvUsb msg2 n2) = true)
      by (cbn; rewrite Hreq2; reflexivity).
    assert (Hh2 : is_reset_high (EvUsb msg2 n2) = false)
      by (cbn; rewrite Hreq2; reflexivity).
    assert (Hrc : rc = if r2 =? 0 then -1 else 0)
      by (subst rc; rewrite Hinit; reflexivity).
    assert (Hcnt : spi = 2 /\ pulses = 1).
    { subst spi pulses st'. rewrite Hinit. cbn [snd]. unfold usleep.
      rewrite !count_log. cbn [with_cache_mem trace]. rewrite !count_log.
      cbn [with_cache_mem trace]. rewrite !count_log.
      rewrite Hs1, Hh1, Hs2, Hh2, Hspi, Hrh. cbn. lia. }
    rewrite Hfirst, Hr1, Hrc.
    destruct Hr2 as [-> | ->]; cbn; repeat split; try tauto; try lia.
Qed.


(** [usbtiny_initialize] never fills the cache. *)
Lemma usbtiny_initialize_cache_mem (st : state) (pgm : PROGRAMMER)
      (p : AVRPART) (res : list byte_t) :
  cache_mem st = None ->
  cache_mem (snd (usbtiny_initialize st pgm p res)) = None.
Proof.
  intros Hn.
  destruct (timing_setup_facts st pgm) as (_ & _ & _ & Hm & _).
  cbn zeta in Hm.
  destruct (usbtiny_initialize_runs st pgm p res)
    as [[_ ->] | (msg1 & n1 & r1 & res1 & _ & _ & Hcase)].
  - cbn. congruence.
  - cbn zeta in Hcase.
    destruct Hcase as [[_ ->] | (_ & k1 & k2 & msg2 & n2 & r2 & _ & _ & ->)];
      reflexivity.
Qed.

(** X3: with a template for the chip-erase operation,
    [usbtiny_chip_erase] returns the status of the erase command (1 when
    acknowledged, 0 when not), whatever the following initialization
    returns, and leaves the cache invalid: the first read of a flash or
    eeprom byte after the erase (cache enabled) makes a refill exchange
    and cannot be served from bytes read before the erase. *)
Theorem X3_chip_erase_invalidates_cache
        (st : state) (pgm : PROGRAMMER) (p : AVRPART)
        (res res' : list byte_t) (t : OPCODE) (m : AVRMEM) (addr : Z) :
  op p AVR_OP_CHIP_ERASE = Some t ->
  cache_disable st <= 0 ->
  cacheable m = true ->
  let rc := fst (usbtiny_chip_erase st pgm p res res') in
  let st' := snd (usbtiny_chip_erase st pgm p res res') in
  rc = fst (fst (usbtiny_cmd st (avr_set_bits t (repeat 0 4%nat)) res)) /\
  (rc = 0 \/ rc = 1) /\
  cache_mem st' = None /\
  count is_read_exchange (trace (snd (usbtiny_read_byte st' m addr))) =
  count is_read_exchange (trace st') + 1.
Proof.
  intros Hop Hen Hc rc st'.
  destruct (usbtiny_avr_op_cases st p AVR_OP_CHIP_ERASE res)
    as [[Hnone _] | (t0 & msg & n & r & res1 & Hop0 & _ & Hr & Hrun & Hcmd)];
    [congruence | ].
  assert (Et : t0 = t) by congruence. subst t0.
  set (s1 := usb_control
               (usleep (log (EvUsb msg n) (with_cache_mem None st))
                       (chip_erase_delay p))
               USBTINY_POWERUP
               (sck_period (usleep (log (EvUsb msg n)
                                        (with_cache_mem None st))
                                   (chip_erase_delay p)))
               RESET_HIGH).
  assert (Herase : usbtiny_chip_erase st pgm p res res' =
                   (r, snd (usbtiny_initialize s1 pgm p res'))).
  { unfold usbtiny_chip_erase. rewrite Hrun. cbn zeta. fold s1.
    destruct (usbtiny_initialize s1 pgm p res'). reflexivity. }
  assert (Hnone : cache_mem st' = None).
  { subst st'. rewrite Herase. cbn [snd].
    apply usbtiny_initialize_cache_mem. reflexivity. }
  assert (Hen' : cache_disable st' <= 0).
  { subst st'. rewrite Herase. cbn [snd].
    destruct (usbtiny_initialize_frame s1 pgm p res') as (_ & _ & ->).
    exact Hen. }
  split; [subst rc; rewrite Herase, Hcmd; reflexivity | ].
  split; [subst rc; rewrite Herase; cbn [fst]; exact Hr | ].
  split; [exact Hnone | ].
  apply usbtiny_read_byte_miss_trace;
    [exact Hen' | exact Hc | apply no_cache_holds_nothing; exact Hnone].
Qed.


(** *** The cache window *)

(** X4: when [chunk_size] is a power of two, the base that
    [usbtiny_read_byte] computes with [addr & ~(chunk_size - 1)] is the
    multiple of [chunk_size] just below or at [addr]; the index
    [addr - base] into the cache buffer lies in [0, chunk_size), and two
    addresses share a base exactly when they lie in the same chunk. *)
Theorem X4_cache_base_is_chunk_aligned (st : state) (addr addr' k : Z) :
  0 <= k ->
  chunk_size st = 2 ^ k ->
  base_of st addr = chunk_size st * (addr / chunk_size st) /\
  0 <= addr - base_of st addr < chunk_size st /\
  (base_of st addr' = base_of st addr <->
   addr' / chunk_size st = addr / chunk_size st).
Proof.
  intros Hk Hc.
  assert (Hpos : 0 < chunk_size st) by (rewrite Hc; apply Z.pow_pos_nonneg; lia).
  assert (Hbase : forall a, base_of st a = chunk_size st * (a / chunk_size st)).
  { intro a. unfold base_of. rewrite Hc.
    replace (2 ^ k - 1) with (Z.ones k) by (rewrite Z.ones_equiv; lia).
    rewrite <- Z.ldiff_land, Z.ldiff_ones_r by exact Hk.
    rewrite Z.shiftl_mul_pow2, Z.shiftr_div_pow2 by exact Hk. lia. }
  split; [apply Hbase | ]. split.
  - rewrite Hbase.
    pose proof (Z.mul_div_le addr (chunk_size st) Hpos).
    pose proof (Z.mul_succ_div_gt addr (chunk_size st) Hpos). lia.
  - rewrite !Hbase. split; intro H; [ | rewrite H; reflexivity].
    apply Z.mul_reg_l in H; [exact H | lia].
Qed.

(** The message of the refill for [addr]. *)
Definition refill_msg (st : state) (m : AVRMEM) (addr : Z) : usb_msg :=
  mk_msg USB_ENDPOINT_IN (read_req m) 0 (int_of_ulong (base_of st addr)) []
         (refill_size st m)
         (USB_TIMEOUT + Z.quot (refill_size st m * (32 * sck_period st)) 1000).

Lemma nth_firstn_below (l : list byte_t) (n i : nat) :
  (i < n)%nat -> nth i (firstn n l) 0 = nth i l 0.
Proof.
  revert n i. induction l as [| x l IH]; intros n i Hi.
  - rewrite firstn_nil. reflexivity.
  - destruct n as [| n]; [lia | ].
    destruct i as [| i]; [reflexivity | ].
    cbn [firstn nth]. apply IH. lia.
Qed.

(** After a transfer of [rx] to the start of the cache buffer, the first
    bytes of the buffer are those of [rx]. *)
Lemma nth_cache_buf_after_store (old rx : list byte_t) (i : nat) :
  (i < length rx)%nat -> (i < Z.to_nat CHUNK_SIZE)%nat ->
  nth i (firstn (Z.to_nat CHUNK_SIZE) (store old 0 rx)) 0 = nth i rx 0.
Proof.
  intros Hi Hc. rewrite nth_firstn_below by exact Hc.
  unfold store. change (Z.to_nat 0) with 0%nat. cbn [firstn app].
  apply app_nth1. exact Hi.
Qed.

(** A miss whose refill is complete, with the state it leaves. *)
Lemma usbtiny_read_byte_refilled (st : state) (m : AVRMEM) (addr : Z) :
  cache_disable st <= 0 ->
  cacheable m = true ->
  ~ cache_holds st m addr ->
  let r := device (trace st) (refill_msg st m addr) in
  reply_n r = refill_size st m ->
  let rx := firstn (Z.to_nat (refill_size st m)) (reply_data r) in
  let st1 :=
    with_cache_base (base_of st addr)
      (with_cache_mem (Some (mem_id m))
         (with_cache_buf
            (firstn (Z.to_nat CHUNK_SIZE) (store (cache_buf st) 0 rx))
            (log (EvUsb (refill_msg st m addr) (reply_n r)) st))) in
  usbtiny_read_byte st m addr =
  (0, Some (nth (Z.to_nat (addr - base_of st addr)) (cache_buf st1) 0), st1).
Proof.
  intros Hen Hc Hm r Hn rx st1. subst st1 rx. unfold usbtiny_read_byte.
  destruct (Z.gtb_spec (cache_disable st) 0); [lia | ].
  unfold cacheable in Hc. rewrite <- negb_orb, Hc. cbn [negb].
  fold (base_of st addr) (read_req m) (refill_size st m).
  destruct (negb _ || negb _) eqn:Etest;
    [ | apply cache_miss_test in Etest; contradiction ].
  unfold usb_in, usb_control_msg. cbn zeta.
  fold (refill_msg st m addr). fold r.
  rewrite Hn, Z.eqb_refl, Z.min_id. cbn [negb Z.eqb].
  reflexivity.
Qed.

(** X5: the cache serves what the adapter sent. After a miss whose refill
    the adapter answers in full, [usbtiny_read_byte] returns the byte of
    the response at offset [addr - base], and a following read at an
    address of the same chunk returns the byte of that same response at
    its own offset, from the cache. *)
Theorem X5_cache_serves_the_refill
        (st : state) (m : AVRMEM) (a1 a2 : Z) :
  cache_disable st <= 0 ->
  cacheable m = true ->
  ~ cache_holds st m a1 ->
  let r := device (trace st) (refill_msg st m a1) in
  reply_n r = refill_size st m ->
  (Z.to_nat (refill_size st m) <= length (reply_data r))%nat ->
  refill_size st m <= CHUNK_SIZE ->
  base_of st a2 = base_of st a1 ->
  0 <= a1 - base_of st a1 < refill_size st m ->
  0 <= a2 - base_of st a1 < refill_size st m ->
  let st1 := snd (usbtiny_read_byte st m a1) in
  usbtiny_read_byte st m a1 =
  (0, Some (nth (Z.to_nat (a1 - base_of st a1)) (reply_data r) 0), st1) /\
  usbtiny_read_byte st1 m a2 =
  (0, Some (nth (Z.to_nat (a2 - base_of st a1)) (reply_data r) 0), st1).
Proof.
  intros Hen Hc Hm r Hn Hlen Hsz Hb H1 H2 st1.
  pose proof (usbtiny_read_byte_refilled st m a1 Hen Hc Hm Hn) as Hrun.
  cbn zeta in Hrun. fold r in Hrun.
  set (rx := firstn (Z.to_nat (refill_size st m)) (reply_data r)) in *.
  set (s1 := with_cache_base _ _) in Hrun.
  assert (Hst1 : st1 = s1) by (subst st1; rewrite Hrun; reflexivity).
  assert (Hrx : length rx = Z.to_nat (refill_size st m))
    by (subst rx; rewrite firstn_length_le by exact Hlen; reflexivity).
  assert (Hbuf : forall a, 0 <= a - base_of st a1 < refill_size st m ->
                   nth (Z.to_nat (a - base_of st a1)) (cache_buf s1) 0 =
                   nth (Z.to_nat (a - base_of st a1)) (reply_data r) 0).
  { intros a Ha. subst s1. cbn [cache_buf with_cache_base with_cache_mem
                                 with_cache_buf].
    rewrite nth_cache_buf_after_store by lia.
    subst rx. apply nth_firstn_below. lia. }
  split.
  - rewrite Hrun, <- Hst1. rewrite Hst1 at 1. rewrite (Hbuf a1 H1).
    reflexivity.
  - rewrite Hst1.
    assert (Hbase : forall a, base_of s1 a = base_of st a) by reflexivity.
    assert (Hh : cache_holds s1 m a2).
    { split; [reflexivity | ]. rewrite Hbase, Hb. reflexivity. }
    rewrite (usbtiny_read_byte_hit s1 m a2 Hen Hc Hh).
    rewrite Hbase, Hb, (Hbuf a2 H2). reflexivity.
Qed.


(** *** The chunks of the paged operations *)

(** The exchange of one iteration of each loop, and what the iteration
    leaves. *)
Definition load_msg (st : state) (req : usb_request) (n_bytes i : Z)
  : usb_msg :=
  mk_msg USB_ENDPOINT_IN req 0 i [] (load_chunk st n_bytes i)
         (USB_TIMEOUT
          + Z.quot (load_chunk st n_bytes i * (32 * sck_period st)) 1000).

Definition load_received (st : state) (req : usb_request) (n_bytes i : Z)
  : list byte_t :=
  let r := device (trace st) (load_msg st req n_bytes i) in
  firstn (Z.to_nat (Z.min (reply_n r) (load_chunk st n_bytes i)))
         (reply_data r).

Definition load_next (st : state) (req : usb_request) (n_bytes i : Z)
  : state :=
  let msg := load_msg st req n_bytes i in
  report_progress (log (EvUsb msg (reply_n (device (trace st) msg))) st)
                  (i + load_chunk st n_bytes i) n_bytes.

Definition write_msg (st : state) (req : usb_request) (delay : Z)
           (m : AVRMEM) (page_size n_bytes i : Z) : usb_msg :=
  let chunk := write_chunk st m page_size n_bytes i in
  mk_msg USB_ENDPOINT_OUT req delay i (slice (buf m) i chunk) chunk
         (USB_TIMEOUT + Z.quot (chunk * (32 * sck_period st + delay)) 1000).

Definition write_next (st : state) (req : usb_request) (delay : Z)
           (m : AVRMEM) (page_size n_bytes i : Z) : state :=
  let msg := write_msg st req delay m page_size n_bytes i in
  let next := i + write_chunk st m page_size n_bytes i in
  let st1 := log (EvUsb msg (reply_n (device (trace st) msg))) st in
  report_progress
    (if commit_due m page_size n_bytes next
     then avr_write_page st1 m i else st1)
    next n_bytes.

Lemma paged_load_loop_next (fuel : nat) (req : usb_request) (n_bytes i : Z)
      (m : AVRMEM) (st : state) :
  i < n_bytes ->
  paged_load_loop (S fuel) req n_bytes i m st =
  paged_load_loop fuel req n_bytes (i + load_chunk st n_bytes i)
    (with_buf m (store (buf m) i (load_received st req n_bytes i)))
    (load_next st req n_bytes i).
Proof.
  intros Hlt. cbn [paged_load_loop].
  destruct (Z.ltb_spec i n_bytes); [reflexivity | lia].
Qed.

Lemma paged_write_loop_next (fuel : nat) (req : usb_request)
      (delay page_size n_bytes i : Z) (m : AVRMEM) (st : state) :
  i < n_bytes ->
  paged_write_loop (S fuel) req delay page_size n_bytes i m st =
  paged_write_loop fuel req delay page_size n_bytes
    (i + write_chunk st m page_size n_bytes i) m
    (write_next st req delay m page_size n_bytes i).
Proof.
  intros Hlt. cbn [paged_write_loop].
  destruct (Z.ltb_spec i n_bytes); [reflexivity | lia].
Qed.

Lemma paged_load_loop_done (fuel : nat) (req : usb_request) (n_bytes i : Z)
      (m : AVRMEM) (st : state) :
  n_bytes <= i -> paged_load_loop fuel req n_bytes i m st = Some (m, st).
Proof.
  intros Hge. destruct fuel; cbn [paged_load_loop];
    destruct (Z.ltb_spec i n_bytes); (reflexivity || lia).
Qed.

Lemma paged_write_loop_done (fuel : nat) (req : usb_request)
      (delay page_size n_bytes i : Z) (m : AVRMEM) (st : state) :
  n_bytes <= i ->
  paged_write_loop fuel req delay page_size n_bytes i m st = Some st.
Proof.
  intros Hge. destruct fuel; cbn [paged_write_loop];
    destruct (Z.ltb_spec i n_bytes); (reflexivity || lia).
Qed.

(** [tiles cap i l n]: the chunks [l] (offset, length) cover [i, n) in
    order, without gap or overlap, each as long as the cap allows. *)
Fixpoint tiles (cap i : Z) (l : list (Z * Z)) (n : Z) : Prop :=
  match l with
  | [] => i = n
  | (off, len) :: l =>
      off = i /\ i < n /\ len = Z.min cap (n - i) /\ tiles cap (i + len) l n
  end.

Lemma chunks_app (f : event -> bool) (t1 t2 : list event) :
  chunks f (t1 ++ t2) = chunks f t1 ++ chunks f t2.
Proof. unfold chunks. apply flat_map_app. Qed.

Lemma commits_app (t1 t2 : list event) :
  commits (t1 ++ t2) = commits t1 ++ commits t2.
Proof. unfold commits. apply flat_map_app. Qed.

Lemma load_chunk_min (st : state) (n_bytes i : Z) :
  load_chunk st n_bytes i = Z.min (chunk_size st) (n_bytes - i).
Proof.
  unfold load_chunk. destruct (Z.gtb_spec (chunk_size st) (n_bytes - i)); lia.
Qed.

Lemma write_chunk_min (st : state) (m : AVRMEM) (page_size n_bytes i : Z) :
  write_chunk st m page_size n_bytes i =
  Z.min (write_cap st m page_size) (n_bytes - i).
Proof.
  unfold write_chunk.
  destruct (Z.gtb_spec (write_cap st m page_size) (n_bytes - i)); lia.
Qed.

Lemma load_next_chunks (st : state) (req : usb_request) (n_bytes i : Z) :
  req = USBTINY_FLASH_READ \/ req = USBTINY_EEPROM_READ ->
  chunk_size (load_next st req n_bytes i) = chunk_size st /\
  chunks is_read_exchange (trace (load_next st req n_bytes i)) =
  chunks is_read_exchange (trace st) ++ [(i, load_chunk st n_bytes i)].
Proof.
  intros Hreq. split; [reflexivity | ].
  unfold load_next, report_progress. cbn [log trace].
  rewrite !chunks_app. cbn.
  destruct Hreq as [-> | ->]; cbn; rewrite app_nil_r; reflexivity.
Qed.

Lemma write_next_chunks (st : state) (req : usb_request) (delay : Z)
      (m : AVRMEM) (page_size n_bytes i : Z) :
  req = USBTINY_FLASH_WRITE \/ req = USBTINY_EEPROM_WRITE ->
  chunk_size (write_next st req delay m page_size n_bytes i) = chunk_size st /\
  chunks is_write_exchange
         (trace (write_next st req delay m page_size n_bytes i)) =
  chunks is_write_exchange (trace st)
  ++ [(i, write_chunk st m page_size n_bytes i)].
Proof.
  intros Hreq. unfold write_next, report_progress, avr_write_page.
  cbn zeta.
  destruct (commit_due m page_size n_bytes _);
    (split; [reflexivity | ]); cbn [log trace]; rewrite !chunks_app; cbn;
    destruct Hreq as [-> | ->]; cbn; rewrite ?app_nil_r; reflexivity.
Qed.


Lemma paged_load_loop_tiles (req : usb_request) (n_bytes : Z) :
  req = USBTINY_FLASH_READ \/ req = USBTINY_EEPROM_READ ->
  forall (fuel : nat) (i : Z) (m : AVRMEM) (st : state),
    0 < chunk_size st ->
    i <= n_bytes ->
    (Z.to_nat (n_bytes - i) <= fuel)%nat ->
    exists m' st' l,
      paged_load_loop fuel req n_bytes i m st = Some (m', st') /\
      chunks is_read_exchange (trace st') =
      chunks is_read_exchange (trace st) ++ l /\
      tiles (chunk_size st) i l n_bytes.
Proof.
  intros Hreq fuel.
  induction fuel as [| fuel IH]; intros i m st Hc Hle Hfuel.
  - exists m, st, []. rewrite paged_load_loop_done by lia.
    rewrite app_nil_r. cbn. repeat split. lia.
  - destruct (Z.ltb_spec i n_bytes) as [Hlt | Hge].
    + rewrite (paged_load_loop_next fuel req n_bytes i m st Hlt).
      destruct (load_next_chunks st req n_bytes i Hreq) as [Hcs Hch].
      pose proof (load_chunk_bounds st n_bytes i Hc Hlt) as Hb.
      destruct (IH (i + load_chunk st n_bytes i)
                   (with_buf m (store (buf m) i
                                      (load_received st req n_bytes i)))
                   (load_next st req n_bytes i))
        as (m' & st' & l & Hrun & Hl & Ht); [lia | lia | lia | ].
      exists m', st', ((i, load_chunk st n_bytes i) :: l).
      split; [exact Hrun | ].
      split; [rewrite Hl, Hch, <- app_assoc; reflexivity | ].
      cbn [tiles]. rewrite Hcs in Ht.
      split; [reflexivity | ]. split; [exact Hlt | ].
      split; [apply load_chunk_min | exact Ht].
    + exists m, st, []. rewrite paged_load_loop_done by lia.
      rewrite app_nil_r. cbn. repeat split. lia.
Qed.

Lemma paged_write_loop_tiles (req : usb_request)
      (delay page_size n_bytes : Z) (m : AVRMEM) :
  req = USBTINY_FLASH_WRITE \/ req = USBTINY_EEPROM_WRITE ->
  (paged m <> 0 -> 0 < page_size) ->
  forall (fuel : nat) (i : Z) (st : state),
    0 < chunk_size st ->
    i <= n_bytes ->
    (Z.to_nat (n_bytes - i) <= fuel)%nat ->
    exists st' l,
      paged_write_loop fuel req delay page_size n_bytes i m st = Some st' /\
      chunks is_write_exchange (trace st') =
      chunks is_write_exchange (trace st) ++ l /\
      tiles (write_cap st m page_size) i l n_bytes.
Proof.
  intros Hreq Hps fuel.
  induction fuel as [| fuel IH]; intros i st Hc Hle Hfuel.
  - exists st, []. rewrite paged_write_loop_done by lia.
    rewrite app_nil_r. cbn. repeat split. lia.
  - destruct (Z.ltb_spec i n_bytes) as [Hlt | Hge].
    + rewrite (paged_write_loop_next fuel req delay page_size n_bytes i m st
                                     Hlt).
      destruct (write_next_chunks st req delay m page_size n_bytes i Hreq)
        as [Hcs Hch].
      pose proof (write_chunk_bounds st m page_size n_bytes i
                    (write_cap_pos st m page_size Hc Hps) Hlt) as Hb.
      destruct (IH (i + write_chunk st m page_size n_bytes i)
                   (write_next st req delay m page_size n_bytes i))
        as (st' & l & Hrun & Hl & Ht); [lia | lia | lia | ].
      exists st', ((i, write_chunk st m page_size n_bytes i) :: l).
      split; [exact Hrun | ].
      split; [rewrite Hl, Hch, <- app_assoc; reflexivity | ].
      cbn [tiles].
      rewrite (write_cap_chunk_size st _ m page_size Hcs) in Ht.
      split; [reflexivity | ]. split; [exact Hlt | ].
      split; [apply write_chunk_min | exact Ht].
    + exists st, []. rewrite paged_write_loop_done by lia.
      rewrite app_nil_r. cbn. repeat split. lia.
Qed.

(** What a tiling implies for each of its chunks. *)
Lemma tiles_chunks (cap n : Z) (l : list (Z * Z)) :
  0 < cap ->
  forall i, 0 <= i -> tiles cap i l n ->
    Forall (fun c => i <= fst c /\ 0 < snd c <= cap /\ fst c + snd c <= n /\
                     (snd c = cap \/ fst c + snd c = n)) l.
Proof.
  intros Hcap. induction l as [| [off len] l IH]; intros i Hi Ht.
  - constructor.
  - cbn [tiles] in Ht. destruct Ht as (-> & Hlt & Hlen & Ht).
    constructor.
    + cbn [fst snd]. lia.
    + apply (IH (i + len)) in Ht; [ | lia].
      eapply Forall_impl; [ | exact Ht].
      intros c Hcnd. cbn beta in *. lia.
Qed.

(** X6: with a positive chunk size and enough fuel, the exchanges of
    [usbtiny_paged_load] tile [0, n_bytes): the first chunk starts at 0,
    each chunk starts where the one before ended, each asks for
    [min(chunk_size, rest)] bytes, so all but the last have [chunk_size]
    bytes, and the last ends at [n_bytes]. *)
Theorem X6_paged_load_chunks_tile_the_buffer
        (fuel : nat) (st : state) (m : AVRMEM) (page_size n_bytes : Z) :
  0 <= n_bytes ->
  0 < chunk_size st ->
  (Z.to_nat n_bytes <= fuel)%nat ->
  exists m' st' l,
    usbtiny_paged_load fuel st m page_size n_bytes = Some (n_bytes, m', st') /\
    chunks is_read_exchange (trace st') =
    chunks is_read_exchange (trace st) ++ l /\
    tiles (chunk_size st) 0 l n_bytes /\
    Forall (fun c => 0 <= fst c /\ 0 < snd c <= chunk_size st /\
                     fst c + snd c <= n_bytes /\
                     (snd c = chunk_size st \/ fst c + snd c = n_bytes)) l.
Proof.
  intros Hn Hc Hfuel. unfold usbtiny_paged_load.
  set (req := if is_flash m then _ else _).
  assert (Hreq : req = USBTINY_FLASH_READ \/ req = USBTINY_EEPROM_READ)
    by (subst req; destruct (is_flash m); auto).
  destruct (paged_load_loop_tiles req n_bytes Hreq fuel 0 m st Hc Hn)
    as (m' & st' & l & Hrun & Hl & Ht);
    [rewrite Z.sub_0_r; exact Hfuel | ].
  exists m', st', l. rewrite Hrun.
  split; [reflexivity | ]. split; [exact Hl | ]. split; [exact Ht | ].
  apply (tiles_chunks (chunk_size st) n_bytes l Hc 0 (Z.le_refl 0) Ht).
Qed.

(** X7: the exchanges of [usbtiny_paged_write] tile [0, n_bytes) in the
    same way, with the cap [chunk_size] for a region that is not paged and
    [min(chunk_size, page_size)] for a paged one: no chunk is longer than
    a page. *)
Theorem X7_paged_write_chunks_tile_the_buffer
        (fuel : nat) (st : state) (m : AVRMEM) (page_size n_bytes : Z) :
  0 <= n_bytes ->
  0 < chunk_size st ->
  (paged m <> 0 -> 0 < page_size) ->
  (Z.to_nat n_bytes <= fuel)%nat ->
  let cap := if paged m =? 0 then chunk_size st
             else Z.min (chunk_size st) page_size in
  exists st' l,
    usbtiny_paged_write fuel st m page_size n_bytes = Some (n_bytes, st') /\
    chunks is_write_exchange (trace st') =
    chunks is_write_exchange (trace st) ++ l /\
    tiles cap 0 l n_bytes /\
    Forall (fun c => 0 <= fst c /\ 0 < snd c <= cap /\
                     fst c + snd c <= n_bytes /\
                     (snd c = cap \/ fst c + snd c = n_bytes)) l.
Proof.
  intros Hn Hc Hps Hfuel cap.
  rewrite usbtiny_paged_write_loop.
  set (req := if is_flash m then _ else _).
  set (delay := if paged m =? 0 then _ else _).
  assert (Hreq : req = USBTINY_FLASH_WRITE \/ req = USBTINY_EEPROM_WRITE)
    by (subst req; destruct (is_flash m); auto).
  destruct (paged_write_entry_facts st m) as (Hce & _ & _).
  assert (Hc' : 0 < chunk_size (paged_write_entry st m)) by lia.
  assert (Hcap : write_cap (paged_write_entry st m) m page_size = cap).
  { rewrite (write_cap_chunk_size st _ m page_size Hce).
    subst cap. unfold write_cap.
    destruct (Z.eqb_spec (paged m) 0); cbn [negb andb]; [reflexivity | ].
    destruct (Z.gtb_spec (chunk_size st) page_size); lia. }
  assert (Hcappos : 0 < cap)
    by (rewrite <- Hcap; apply write_cap_pos; [exact Hc' | exact Hps]).
  assert (Hentry : chunks is_write_exchange (trace (paged_write_entry st m)) =
                   chunks is_write_exchange (trace st)).
  { unfold paged_write_entry. destruct (paged m =? 0); [ | reflexivity].
    unfold usb_control, usb_control_msg. cbn [snd log trace].
    rewrite chunks_app. cbn. apply app_nil_r. }
  destruct (paged_write_loop_tiles req delay page_size n_bytes m Hreq Hps
              fuel 0 (paged_write_entry st m) Hc' Hn)
    as (st' & l & Hrun & Hl & Ht);
    [rewrite Z.sub_0_r; exact Hfuel | ].
  rewrite Hcap in Ht.
  exists st', l. rewrite Hrun.
  split; [reflexivity | ]. split; [rewrite Hl, Hentry; reflexivity | ].
  split; [exact Ht | ].
  apply (tiles_chunks cap n_bytes l Hcappos 0 (Z.le_refl 0) Ht).
Qed.


(** *** The pages of a paged write *)

(** The page numbers [a, a + 1, ..., a + k - 1]. *)
Definition page_range (a : Z) (k : nat) : list Z :=
  map (fun j => a + Z.of_nat j) (seq 0 k).

Lemma page_range_S (a : Z) (k : nat) :
  page_range a (S k) = a :: page_range (a + 1) k.
Proof.
  unfold page_range. cbn [seq map]. f_equal; [lia | ].
  rewrite <- seq_shift, map_map. apply map_ext. intros j. lia.
Qed.

Lemma commits_left_nonneg (P n i : Z) : 0 < P -> 0 <= commits_left P n i.
Proof.
  intros HP. unfold commits_left. destruct (Z.ltb_spec i n); [ | lia].
  pose proof (ceil_div_spec n P HP). pose proof (Z.mul_div_le i P HP). nia.
Qed.

(** A chunk that starts on a multiple of the cap stays inside its page;
    the commit is due exactly when it ends the page or the data. *)
Lemma chunk_in_page (P e n i : Z) :
  0 < P -> 0 < e -> (e | P) -> (e | i) -> 0 <= i < n ->
  let next := i + (if e >? n - i then n - i else e) in
  let due := (Z.rem next P =? 0) || (next =? n) in
  (next - 1) / P = i / P /\
  (due = true -> next < n -> next / P = i / P + 1) /\
  (due = false -> next < n /\ next / P = i / P).
Proof.
  intros HP He [q Hq] [k Hk] Hi next due.
  set (a := i / P).
  assert (Ha : a * P <= i < (a + 1) * P).
  { pose proof (Z.mul_div_le i P HP). pose proof (Z.mul_succ_div_gt i P HP).
    subst a. lia. }
  assert (Hk1 : k < (a + 1) * q) by nia.
  assert (Hie : i + e <= (a + 1) * P) by nia.
  assert (Hnext : i < next <= n /\ next <= i + e)
    by (subst next; destruct (Z.gtb_spec e (n - i)); lia).
  split; [apply div_between; lia | ].
  subst due. rewrite Z.rem_mod_nonneg by lia.
  destruct (Z.eq_dec next ((a + 1) * P)) as [Eb | Eb].
  - split.
    + intros _ _. rewrite Eb. apply Z.div_mul. lia.
    + rewrite Eb at 1. rewrite Z.mod_mul by lia. cbn. discriminate.
  - assert (Hd : next / P = a) by (apply div_between; lia).
    assert (Hmod : next mod P <> 0) by (rewrite Z.mod_eq, Hd by lia; lia).
    destruct (Z.eqb_spec (next mod P) 0); [contradiction | ].
    cbn [orb]. split.
    + intros Hdue Hlt. apply Z.eqb_eq in Hdue. lia.
    + intros Hdue. apply Z.eqb_neq in Hdue. split; [lia | exact Hd].
Qed.

Lemma write_next_commits (st : state) (req : usb_request) (delay : Z)
      (m : AVRMEM) (page_size n_bytes i : Z) :
  commits (trace (write_next st req delay m page_size n_bytes i)) =
  commits (trace st)
  ++ (if commit_due m page_size n_bytes
                    (i + write_chunk st m page_size n_bytes i)
      then [i] else []).
Proof.
  unfold write_next, report_progress, avr_write_page. cbn zeta.
  destruct (commit_due m page_size n_bytes _);
    cbn [log trace]; rewrite !commits_app; cbn;
    rewrite ?app_nil_r; reflexivity.
Qed.

(** On a paged region whose page size the cap [e] divides, the loop
    commits the pages from that of [i] on, one after the other, and no
    chunk crosses a page boundary. *)
Lemma paged_write_loop_pages (req : usb_request)
      (delay page_size n_bytes e : Z) (m : AVRMEM) :
  req = USBTINY_FLASH_WRITE \/ req = USBTINY_EEPROM_WRITE ->
  paged m <> 0 ->
  0 < page_size -> 0 < e -> (e | page_size) ->
  forall (fuel : nat) (i : Z) (st : state),
    write_cap st m page_size = e ->
    (i < n_bytes -> (e | i)) ->
    0 <= i <= n_bytes ->
    (Z.to_nat (n_bytes - i) <= fuel)%nat ->
    exists st' lw lc,
      paged_write_loop fuel req delay page_size n_bytes i m st = Some st' /\
      commits (trace st') = commits (trace st) ++ lw /\
      map (fun a => a / page_size) lw =
      page_range (i / page_size)
                 (Z.to_nat (commits_left page_size n_bytes i)) /\
      chunks is_write_exchange (trace st') =
      chunks is_write_exchange (trace st) ++ lc /\
      Forall (fun c => (fst c + snd c - 1) / page_size = fst c / page_size)
             lc.
Proof.
  intros Hreq Hp HP He Hdiv fuel.
  induction fuel as [| fuel IH]; intros i st Hcap Hi Hle Hfuel.
  - assert (i = n_bytes) by lia. subst i.
    exists st, [], []. rewrite paged_write_loop_done by lia.
    rewrite !app_nil_r. unfold commits_left. rewrite Z.ltb_irrefl.
    repeat split. constructor.
  - destruct (Z.ltb_spec i n_bytes) as [Hlt | Hge].
    + rewrite (paged_write_loop_next fuel req delay page_size n_bytes i m st
                                     Hlt).
      assert (Hchunk : write_chunk st m page_size n_bytes i =
                       if e >? n_bytes - i then n_bytes - i else e)
        by (unfold write_chunk; rewrite Hcap; reflexivity).
      destruct (commit_arith page_size e n_bytes i HP He Hdiv (Hi Hlt)
                             (conj (proj1 Hle) Hlt)) as [Hinv Hcount].
      destruct (chunk_in_page page_size e n_bytes i HP He Hdiv (Hi Hlt)
                              (conj (proj1 Hle) Hlt))
        as (Hin & Hdue & Hnot).
      cbn zeta in Hinv, Hcount, Hin, Hdue, Hnot.
      pose proof (write_next_commits st req delay m page_size n_bytes i)
        as Hwc.
      destruct (write_next_chunks st req delay m page_size n_bytes i Hreq)
        as [Hcs Hch].
      rewrite Hchunk in *.
      set (next := i + (if e >? n_bytes - i then n_bytes - i else e)) in *.
      assert (Hb : i < next <= n_bytes)
        by (subst next; destruct (Z.gtb_spec e (n_bytes - i)); lia).
      set (st2 := write_next st req delay m page_size n_bytes i) in *.
      destruct (IH next st2) as (st' & lw & lc & Hrun & Hlw & Hpg & Hlc & Hfa);
        [ rewrite (write_cap_chunk_size st st2 m page_size Hcs); exact Hcap
        | exact Hinv | lia | lia | ].
      assert (Hdue' : commit_due m page_size n_bytes next =
                      (Z.rem next page_size =? 0) || (next =? n_bytes)).
      { unfold commit_due. destruct (Z.eqb_spec (paged m) 0);
          [contradiction | reflexivity]. }
      rewrite Hdue' in Hwc.
      pose proof (commits_left_nonneg page_size n_bytes next HP) as Hnn.
      exists st'.
      exists ((if (Z.rem next page_size =? 0) || (next =? n_bytes)
               then [i] else []) ++ lw).
      exists ((i, next - i) :: lc).
      split; [exact Hrun | ].
      split; [rewrite Hlw, Hwc, <- app_assoc; reflexivity | ].
      split; [ | split].
      * destruct ((Z.rem next page_size =? 0) || (next =? n_bytes)) eqn:Ed.
        -- cbn [app map]. rewrite Hpg.
           replace (Z.to_nat (commits_left page_size n_bytes i))
             with (S (Z.to_nat (commits_left page_size n_bytes next)))
             by lia.
           rewrite page_range_S. f_equal.
           destruct (Z.eq_dec next n_bytes) as [En | En].
           ++ replace (commits_left page_size n_bytes next) with 0
                by (unfold commits_left;
                    destruct (Z.ltb_spec next n_bytes); [lia | reflexivity]).
              reflexivity.
           ++ rewrite (Hdue eq_refl) by lia. reflexivity.
        -- cbn [app]. rewrite Hpg.
           destruct (Hnot eq_refl) as [_ ->].
           replace (commits_left page_size n_bytes next)
             with (commits_left page_size n_bytes i) by lia.
           reflexivity.
      * rewrite Hlc, Hch. replace (next - i)
          with (if e >? n_bytes - i then n_bytes - i else e)
          by (subst next; lia).
        rewrite <- app_assoc. reflexivity.
      * constructor; [ | exact Hfa]. cbn [fst snd].
        replace (i + (next - i) - 1) with (next - 1) by lia. exact Hin.
    + assert (i = n_bytes) by lia. subst i.
      exists st, [], []. rewrite paged_write_loop_done by lia.
      rewrite !app_nil_r. unfold commits_left. rewrite Z.ltb_irrefl.
      repeat split. constructor.
Qed.


(** X8: on a paged region whose page size is a multiple of the cap
    [min(chunk_size, page_size)], [usbtiny_paged_write] commits every page
    that holds data exactly once and in order: the k-th call of
    [avr_write_page] gets an address inside page k, for k from 0 to
    [ceil(n_bytes / page_size) - 1]; and no chunk crosses a page
    boundary. *)
Theorem X8_paged_write_commits_each_page_in_order
        (fuel : nat) (st : state) (m : AVRMEM) (page_size n_bytes : Z) :
  0 <= n_bytes ->
  0 < chunk_size st ->
  paged m <> 0 ->
  0 < page_size ->
  (Z.min (chunk_size st) page_size | page_size) ->
  (Z.to_nat n_bytes <= fuel)%nat ->
  exists st' lw lc,
    usbtiny_paged_write fuel st m page_size n_bytes = Some (n_bytes, st') /\
    commits (trace st') = commits (trace st) ++ lw /\
    map (fun a => a / page_size) lw =
    page_range 0 (Z.to_nat (ceil_div n_bytes page_size)) /\
    chunks is_write_exchange (trace st') =
    chunks is_write_exchange (trace st) ++ lc /\
    Forall (fun c => (fst c + snd c - 1) / page_size = fst c / page_size) lc.
Proof.
  intros Hn Hc Hp HP Hdiv Hfuel.
  rewrite usbtiny_paged_write_loop.
  set (req := if is_flash m then _ else _).
  set (delay := if paged m =? 0 then _ else _).
  assert (Hreq : req = USBTINY_FLASH_WRITE \/ req = USBTINY_EEPROM_WRITE)
    by (subst req; destruct (is_flash m); auto).
  assert (Hentry : paged_write_entry st m = st).
  { unfold paged_write_entry.
    destruct (Z.eqb_spec (paged m) 0); [contradiction | reflexivity]. }
  rewrite Hentry.
  assert (Hcap : write_cap st m page_size = Z.min (chunk_size st) page_size).
  { unfold write_cap. destruct (Z.eqb_spec (paged m) 0); [contradiction | ].
    cbn [negb andb]. destruct (Z.gtb_spec (chunk_size st) page_size); lia. }
  destruct (paged_write_loop_pages req delay page_size n_bytes
              (Z.min (chunk_size st) page_size) m Hreq Hp HP
              ltac:(lia) Hdiv fuel 0 st Hcap
              (fun _ => Z.divide_0_r _) (conj (Z.le_refl 0) Hn))
    as (st' & lw & lc & Hrun & Hlw & Hpg & Hlc & Hfa);
    [rewrite Z.sub_0_r; exact Hfuel | ].
  exists st', lw, lc. rewrite Hrun.
  split; [reflexivity | ]. split; [exact Hlw | ].
  split; [ | split; [exact Hlc | exact Hfa]].
  rewrite Hpg, Z.div_0_l by lia. f_equal. f_equal.
  unfold commits_left. rewrite Z.div_0_l by lia.
  destruct (Z.ltb_spec 0 n_bytes); [lia | ].
  assert (n_bytes = 0) by lia. subst n_bytes.
  unfold ceil_div. rewrite Z.div_small by lia. reflexivity.
Qed.


(** *** The bytes of the paged operations *)

(** The bytes that the exchanges selected by [f] carry out, in order. *)
Definition payload (f : event -> bool) (tr : list event) : list byte_t :=
  flat_map (fun e => match e with
                     | EvUsb m _ => if f e then msg_data m else []
                     | _ => []
                     end) tr.

Lemma payload_app (f : event -> bool) (t1 t2 : list event) :
  payload f (t1 ++ t2) = payload f t1 ++ payload f t2.
Proof. unfold payload. apply flat_map_app. Qed.

Lemma firstn_plus (A : Type) (a b : nat) (l : list A) :
  firstn (a + b) l = firstn a l ++ firstn b (skipn a l).
Proof.
  revert l. induction a as [| a IH]; intros l; [reflexivity | ].
  destruct l as [| x l]; [cbn; rewrite firstn_nil; reflexivity | ].
  cbn [Nat.add firstn skipn app]. f_equal. apply IH.
Qed.

Lemma slice_app (l : list byte_t) (i a b : Z) :
  0 <= i -> 0 <= a -> 0 <= b ->
  slice l i a ++ slice l (i + a) b = slice l i (a + b).
Proof.
  intros Hi Ha Hb. unfold slice.
  rewrite !Z2Nat.inj_add by lia.
  rewrite firstn_plus, skipn_skipn.
  rewrite (Nat.add_comm (Z.to_nat a)). reflexivity.
Qed.

Lemma write_next_payload (st : state) (req : usb_request) (delay : Z)
      (m : AVRMEM) (page_size n_bytes i : Z) :
  req = USBTINY_FLASH_WRITE \/ req = USBTINY_EEPROM_WRITE ->
  payload is_write_exchange
          (trace (write_next st req delay m page_size n_bytes i)) =
  payload is_write_exchange (trace st)
  ++ slice (buf m) i (write_chunk st m page_size n_bytes i).
Proof.
  intros Hreq. unfold write_next, report_progress, avr_write_page.
  cbn zeta.
  destruct (commit_due m page_size n_bytes _);
    cbn [log trace]; rewrite !payload_app; cbn;
    destruct Hreq as [-> | ->]; cbn; rewrite ?app_nil_r; reflexivity.
Qed.

Lemma paged_write_loop_payload (req : usb_request)
      (delay page_size n_bytes : Z) (m : AVRMEM) :
  req = USBTINY_FLASH_WRITE \/ req = USBTINY_EEPROM_WRITE ->
  (paged m <> 0 -> 0 < page_size) ->
  forall (fuel : nat) (i : Z) (st : state),
    0 < chunk_size st ->
    0 <= i <= n_bytes ->
    (Z.to_nat (n_bytes - i) <= fuel)%nat ->
    exists st',
      paged_write_loop fuel req delay page_size n_bytes i m st = Some st' /\
      payload is_write_exchange (trace st') =
      payload is_write_exchange (trace st) ++ slice (buf m) i (n_bytes - i).
Proof.
  intros Hreq Hps fuel.
  induction fuel as [| fuel IH]; intros i st Hc Hle Hfuel.
  - assert (i = n_bytes) by lia. subst i.
    exists st. rewrite paged_write_loop_done by lia.
    rewrite Z.sub_diag. unfold slice. cbn [Z.to_nat firstn].
    rewrite app_nil_r. split; reflexivity.
  - destruct (Z.ltb_spec i n_bytes) as [Hlt | Hge].
    + rewrite (paged_write_loop_next fuel req delay page_size n_bytes i m st
                                     Hlt).
      pose proof (write_next_payload st req delay m page_size n_bytes i Hreq)
        as Hpay.
      destruct (write_next_chunks st req delay m page_size n_bytes i Hreq)
        as [Hcs _].
      pose proof (write_chunk_bounds st m page_size n_bytes i
                    (write_cap_pos st m page_size Hc Hps) Hlt) as Hb.
      destruct (IH (i + write_chunk st m page_size n_bytes i)
                   (write_next st req delay m page_size n_bytes i))
        as (st' & Hrun & Hp); [lia | lia | lia | ].
      exists st'. split; [exact Hrun | ].
      rewrite Hp, Hpay, <- app_assoc, slice_app by lia.
      do 2 f_equal. lia.
    + assert (i = n_bytes) by lia. subst i.
      exists st. rewrite paged_write_loop_done by lia.
      rewrite Z.sub_diag. unfold slice. cbn [Z.to_nat firstn].
      rewrite app_nil_r. split; reflexivity.
Qed.

(** X9: the bytes that the write exchanges of [usbtiny_paged_write] carry,
    taken in order, are the first [n_bytes] bytes of the region's buffer:
    every byte is sent once, none is skipped or repeated, whatever the
    chunk and page sizes. *)
Theorem X9_paged_write_sends_the_buffer
        (fuel : nat) (st : state) (m : AVRMEM) (page_size n_bytes : Z) :
  0 <= n_bytes ->
  0 < chunk_size st ->
  (paged m <> 0 -> 0 < page_size) ->
  (Z.to_nat n_bytes <= fuel)%nat ->
  exists st',
    usbtiny_paged_write fuel st m page_size n_bytes = Some (n_bytes, st') /\
    payload is_write_exchange (trace st') =
    payload is_write_exchange (trace st)
    ++ firstn (Z.to_nat n_bytes) (buf m).
Proof.
  intros Hn Hc Hps Hfuel.
  rewrite usbtiny_paged_write_loop.
  set (req := if is_flash m then _ else _).
  set (delay := if paged m =? 0 then _ else _).
  assert (Hreq : req = USBTINY_FLASH_WRITE \/ req = USBTINY_EEPROM_WRITE)
    by (subst req; destruct (is_flash m); auto).
  destruct (paged_write_entry_facts st m) as (Hce & _ & _).
  assert (Hc' : 0 < chunk_size (paged_write_entry st m)) by lia.
  assert (Hentry : payload is_write_exchange
                           (trace (paged_write_entry st m)) =
                   payload is_write_exchange (trace st)).
  { unfold paged_write_entry. destruct (paged m =? 0); [ | reflexivity].
    unfold usb_control, usb_control_msg. cbn [snd log trace].
    rewrite payload_app. cbn. apply app_nil_r. }
  destruct (paged_write_loop_payload req delay page_size n_bytes m Hreq Hps
              fuel 0 (paged_write_entry st m) Hc' (conj (Z.le_refl 0) Hn))
    as (st' & Hrun & Hp);
    [rewrite Z.sub_0_r; exact Hfuel | ].
  exists st'. rewrite Hrun. split; [reflexivity | ].
  rewrite Hp, Hentry, Z.sub_0_r. reflexivity.
Qed.


(** An adapter answers the requests [req] from the memory [mem]: in full,
    with the bytes of [mem] at the offset of the request. *)
Definition serves (req : usb_request) (mem : list byte_t) : Prop :=
  forall tr msg,
    msg_req msg = req ->
    reply_n (device tr msg) = msg_len msg /\
    reply_data (device tr msg) = slice mem (msg_index msg) (msg_len msg).

Lemma slice_length (l : list byte_t) (i c : Z) :
  0 <= i -> 0 <= c -> i + c <= Z.of_nat (length l) ->
  length (slice l i c) = Z.to_nat c.
Proof.
  intros Hi Hc Hl. unfold slice.
  rewrite firstn_length_le; [reflexivity | ].
  rewrite length_skipn. lia.
Qed.

(** Storing the next chunk of [mem] into a buffer that already starts with
    the first [i] bytes of [mem]. *)
Lemma store_next_chunk (mem old : list byte_t) (i c : Z) :
  0 <= i -> 0 <= c ->
  i + c <= Z.of_nat (length mem) ->
  i + c <= Z.of_nat (length old) ->
  store (firstn (Z.to_nat i) mem ++ skipn (Z.to_nat i) old) i (slice mem i c) =
  firstn (Z.to_nat (i + c)) mem ++ skipn (Z.to_nat (i + c)) old.
Proof.
  intros Hi Hc Hm Ho. unfold store.
  assert (Hfi : length (firstn (Z.to_nat i) mem) = Z.to_nat i)
    by (apply firstn_length_le; lia).
  rewrite slice_length by lia.
  rewrite firstn_app, Hfi, Nat.sub_diag. cbn [firstn].
  rewrite app_nil_r, firstn_firstn, Nat.min_id.
  rewrite skipn_app, Hfi.
  replace (Z.to_nat i + Z.to_nat c - Z.to_nat i)%nat with (Z.to_nat c) by lia.
  rewrite skipn_skipn.
  rewrite (skipn_all2 (firstn (Z.to_nat i) mem)) by lia.
  cbn [app]. rewrite app_assoc.
  rewrite Z2Nat.inj_add by lia.
  rewrite firstn_plus. fold (slice mem i c).
  rewrite (Nat.add_comm (Z.to_nat c)). reflexivity.
Qed.

Lemma paged_load_loop_data (req : usb_request) (n_bytes : Z)
      (mem old : list byte_t) :
  serves req mem ->
  n_bytes <= Z.of_nat (length mem) ->
  n_bytes <= Z.of_nat (length old) ->
  forall (fuel : nat) (i : Z) (m : AVRMEM) (st : state),
    0 < chunk_size st ->
    0 <= i <= n_bytes ->
    buf m = firstn (Z.to_nat i) mem ++ skipn (Z.to_nat i) old ->
    (Z.to_nat (n_bytes - i) <= fuel)%nat ->
    exists m' st',
      paged_load_loop fuel req n_bytes i m st = Some (m', st') /\
      buf m' = firstn (Z.to_nat n_bytes) mem ++ skipn (Z.to_nat n_bytes) old /\
      with_buf m' (buf m) = m.
Proof.
  intros Hserve Hm Ho fuel.
  induction fuel as [| fuel IH]; intros i m st Hc Hle Hbuf Hfuel.
  - assert (i = n_bytes) by lia. subst i.
    exists m, st. rewrite paged_load_loop_done by lia.
    split; [reflexivity | ]. split; [exact Hbuf | destruct m; reflexivity].
  - destruct (Z.ltb_spec i n_bytes) as [Hlt | Hge].
    + rewrite (paged_load_loop_next fuel req n_bytes i m st Hlt).
      pose proof (load_chunk_bounds st n_bytes i Hc Hlt) as Hb.
      assert (Hrx : load_received st req n_bytes i =
                    slice mem i (load_chunk st n_bytes i)).
      { unfold load_received. cbn zeta.
        destruct (Hserve (trace st) (load_msg st req n_bytes i) eq_refl)
          as [Hn Hd].
        rewrite Hn, Hd. cbn [load_msg msg_len msg_index].
        rewrite Z.min_id. unfold slice.
        rewrite firstn_firstn, Nat.min_id. reflexivity. }
      rewrite Hrx, Hbuf, store_next_chunk by lia.
      destruct (IH (i + load_chunk st n_bytes i)
                   (with_buf m
                      (firstn (Z.to_nat (i + load_chunk st n_bytes i)) mem
                       ++ skipn (Z.to_nat (i + load_chunk st n_bytes i)) old))
                   (load_next st req n_bytes i))
        as (m' & st' & Hrun & Hres & Hsame);
        [exact Hc | lia | reflexivity | lia | ].
      exists m', st'. split; [exact Hrun | ]. split; [exact Hres | ].
      rewrite <- Hbuf. clear - Hsame.
      destruct m', m. unfold with_buf in *. cbn in *.
      injection Hsame as -> -> -> -> -> ->. reflexivity.
    + assert (i = n_bytes) by lia. subst i.
      exists m, st. rewrite paged_load_loop_done by lia.
      split; [reflexivity | ]. split; [exact Hbuf | destruct m; reflexivity].
Qed.

(** X10: against an adapter that answers the read requests of the region
    in full from a memory [mem], [usbtiny_paged_load] leaves in the
    region's buffer the first [n_bytes] bytes of [mem], followed by what
    the buffer held beyond [n_bytes]; the other fields of the region are
    as before. *)
Theorem X10_paged_load_reads_the_adapter_memory
        (fuel : nat) (st : state) (m : AVRMEM) (page_size n_bytes : Z)
        (mem : list byte_t) :
  serves (read_req m) mem ->
  0 <= n_bytes ->
  n_bytes <= Z.of_nat (length mem) ->
  n_bytes <= Z.of_nat (length (buf m)) ->
  0 < chunk_size st ->
  (Z.to_nat n_bytes <= fuel)%nat ->
  exists m' st',
    usbtiny_paged_load fuel st m page_size n_bytes = Some (n_bytes, m', st') /\
    buf m' = firstn (Z.to_nat n_bytes) mem
             ++ skipn (Z.to_nat n_bytes) (buf m) /\
    with_buf m' (buf m) = m.
Proof.
  intros Hserve Hn Hm Ho Hc Hfuel. unfold usbtiny_paged_load.
  fold (read_req m).
  destruct (paged_load_loop_data (read_req m) n_bytes mem (buf m) Hserve Hm Ho
              fuel 0 m st Hc (conj (Z.le_refl 0) Hn) eq_refl)
    as (m' & st' & Hrun & Hres & Hsame);
    [rewrite Z.sub_0_r; exact Hfuel | ].
  exists m', st'. rewrite Hrun. repeat split; assumption.
Qed.


(** *** Writing and reading back *)

Definition usb_request_eq_dec (a b : usb_request) : {a = b} + {a <> b}.
Proof. decide equality. Defined.

Definition write_req (m : AVRMEM) : usb_request :=
  if is_flash m then USBTINY_FLASH_WRITE else USBTINY_EEPROM_WRITE.

(** The memory behind the requests [wreq] after the exchanges of a trace:
    every such exchange stores its bytes at its offset. *)
Definition image_step (wreq : usb_request) (mem : list byte_t) (e : event)
  : list byte_t :=
  match e with
  | EvUsb msg _ =>
      if usb_request_eq_dec (msg_req msg) wreq
      then store mem (msg_index msg) (msg_data msg)
      else mem
  | _ => mem
  end.

Definition image (wreq : usb_request) (init : list byte_t)
           (tr : list event) : list byte_t :=
  fold_left (image_step wreq) tr init.

(** An adapter that keeps what the requests [wreq] wrote and answers the
    requests [rreq] from it, in full. *)
Definition stores (wreq rreq : usb_request) (init : list byte_t) : Prop :=
  forall tr msg,
    msg_req msg = rreq ->
    reply_n (device tr msg) = msg_len msg /\
    reply_data (device tr msg) =
    slice (image wreq init tr) (msg_index msg) (msg_len msg).

Lemma image_app (wreq : usb_request) (init : list byte_t)
      (t1 t2 : list event) :
  image wreq init (t1 ++ t2) = fold_left (image_step wreq) t2 (image wreq init t1).
Proof. unfold image. apply fold_left_app. Qed.

Lemma write_next_image (st : state) (req : usb_request) (delay : Z)
      (m : AVRMEM) (page_size n_bytes i : Z) (init : list byte_t) :
  image req init (trace (write_next st req delay m page_size n_bytes i)) =
  store (image req init (trace st)) i
        (slice (buf m) i (write_chunk st m page_size n_bytes i)).
Proof.
  unfold write_next, report_progress, avr_write_page. cbn zeta.
  destruct (commit_due m page_size n_bytes _);
    cbn [log trace]; rewrite !image_app; cbn [fold_left image_step];
    unfold write_msg; cbn [msg_req msg_index msg_data];
    destruct (usb_request_eq_dec req req); (reflexivity || contradiction).
Qed.

Lemma load_next_image (st : state) (rreq wreq : usb_request)
      (n_bytes i : Z) (init : list byte_t) :
  rreq <> wreq ->
  image wreq init (trace (load_next st rreq n_bytes i)) =
  image wreq init (trace st).
Proof.
  intros Hne. unfold load_next, report_progress. cbn [log trace].
  rewrite !image_app. cbn [fold_left image_step load_msg msg_req].
  destruct (usb_request_eq_dec rreq wreq); [contradiction | reflexivity].
Qed.

Lemma store_length (old src : list byte_t) (i : Z) :
  0 <= i -> (Z.to_nat i + length src <= length old)%nat ->
  length (store old i src) = length old.
Proof.
  intros Hi Hl. unfold store.
  rewrite !length_app, firstn_length_le, length_skipn by lia. lia.
Qed.

(** The write loop leaves in the adapter the bytes of the buffer. *)
Lemma paged_write_loop_image (req : usb_request)
      (delay page_size n_bytes : Z) (m : AVRMEM) (init old : list byte_t) :
  (paged m <> 0 -> 0 < page_size) ->
  n_bytes <= Z.of_nat (length (buf m)) ->
  n_bytes <= Z.of_nat (length old) ->
  forall (fuel : nat) (i : Z) (st : state),
    0 < chunk_size st ->
    0 <= i <= n_bytes ->
    image req init (trace st) =
    firstn (Z.to_nat i) (buf m) ++ skipn (Z.to_nat i) old ->
    (Z.to_nat (n_bytes - i) <= fuel)%nat ->
    exists st',
      paged_write_loop fuel req delay page_size n_bytes i m st = Some st' /\
      chunk_size st' = chunk_size st /\
      image req init (trace st') =
      firstn (Z.to_nat n_bytes) (buf m) ++ skipn (Z.to_nat n_bytes) old.
Proof.
  intros Hps Hb Ho fuel.
  induction fuel as [| fuel IH]; intros i st Hc Hle Himg Hfuel.
  - assert (i = n_bytes) by lia. subst i.
    exists st. rewrite paged_write_loop_done by lia. repeat split. exact Himg.
  - destruct (Z.ltb_spec i n_bytes) as [Hlt | Hge].
    + rewrite (paged_write_loop_next fuel req delay page_size n_bytes i m st
                                     Hlt).
      pose proof (write_chunk_bounds st m page_size n_bytes i
                    (write_cap_pos st m page_size Hc Hps) Hlt) as Hbd.
      assert (Hcs : chunk_size (write_next st req delay m page_size n_bytes i)
                    = chunk_size st)
        by (unfold write_next, report_progress, avr_write_page; cbn zeta;
            destruct (commit_due m page_size n_bytes _); reflexivity).
      destruct (IH (i + write_chunk st m page_size n_bytes i)
                   (write_next st req delay m page_size n_bytes i))
        as (st' & Hrun & Hcs' & Hres); [lia | lia | | lia | ].
      { rewrite write_next_image, Himg. apply store_next_chunk; lia. }
      exists st'. split; [exact Hrun | split; [lia | exact Hres]].
    + assert (i = n_bytes) by lia. subst i.
      exists st. rewrite paged_write_loop_done by lia. repeat split. exact Himg.
Qed.

(** The read loop against an adapter that stores: the memory does not
    change while reading, and the buffer receives it. *)
Lemma paged_load_loop_image (rreq wreq : usb_request) (n_bytes : Z)
      (init mem old : list byte_t) :
  stores wreq rreq init ->
  rreq <> wreq ->
  n_bytes <= Z.of_nat (length mem) ->
  n_bytes <= Z.of_nat (length old) ->
  forall (fuel : nat) (i : Z) (m : AVRMEM) (st : state),
    0 < chunk_size st ->
    0 <= i <= n_bytes ->
    image wreq init (trace st) = mem ->
    buf m = firstn (Z.to_nat i) mem ++ skipn (Z.to_nat i) old ->
    (Z.to_nat (n_bytes - i) <= fuel)%nat ->
    exists m' st',
      paged_load_loop fuel rreq n_bytes i m st = Some (m', st') /\
      buf m' = firstn (Z.to_nat n_bytes) mem ++ skipn (Z.to_nat n_bytes) old.
Proof.
  intros Hstores Hne Hm Ho fuel.
  induction fuel as [| fuel IH]; intros i m st Hc Hle Himg Hbuf Hfuel.
  - assert (i = n_bytes) by lia. subst i.
    exists m, st. rewrite paged_load_loop_done by lia.
    split; [reflexivity | exact Hbuf].
  - destruct (Z.ltb_spec i n_bytes) as [Hlt | Hge].
    + rewrite (paged_load_loop_next fuel rreq n_bytes i m st Hlt).
      pose proof (load_chunk_bounds st n_bytes i Hc Hlt) as Hb.
      assert (Hrx : load_received st rreq n_bytes i =
                    slice mem i (load_chunk st n_bytes i)).
      { unfold load_received. cbn zeta.
        destruct (Hstores (trace st) (load_msg st rreq n_bytes i) eq_refl)
          as [Hn Hd].
        rewrite Hn, Hd, Himg. cbn [load_msg msg_len msg_index].
        rewrite Z.min_id. unfold slice.
        rewrite firstn_firstn, Nat.min_id. reflexivity. }
      rewrite Hrx, Hbuf, store_next_chunk by lia.
      destruct (IH (i + load_chunk st n_bytes i)
                   (with_buf m
                      (firstn (Z.to_nat (i + load_chunk st n_bytes i)) mem
                       ++ skipn (Z.to_nat (i + load_chunk st n_bytes i)) old))
                   (load_next st rreq n_bytes i))
        as (m' & st' & Hrun & Hres);
        [ exact Hc | lia
        | rewrite load_next_image by exact Hne; exact Himg
        | reflexivity | lia | ].
      exists m', st'. split; [exact Hrun | exact Hres].
    + assert (i = n_bytes) by lia. subst i.
      exists m, st. rewrite paged_load_loop_done by lia.
      split; [reflexivity | exact Hbuf].
Qed.


Lemma firstn_app_exact (l1 l2 : list byte_t) (k : nat) :
  length l1 = k -> firstn k (l1 ++ l2) = l1.
Proof.
  intros <-. rewrite firstn_app, Nat.sub_diag, firstn_all. cbn [firstn].
  apply app_nil_r.
Qed.

Lemma skipn_app_exact (l1 l2 : list byte_t) (k : nat) :
  length l1 = k -> skipn k (l1 ++ l2) = l2.
Proof.
  intros <-. rewrite skipn_app, Nat.sub_diag, skipn_all. reflexivity.
Qed.

(** X11: write, then read back. Against an adapter that keeps the bytes of
    the write exchanges at their offsets and answers the read exchanges
    from them, [usbtiny_paged_write] of [n_bytes] bytes of a region
    followed by [usbtiny_paged_load] of [n_bytes] bytes into a region of
    the same kind brings back the bytes that were written, and leaves the
    rest of the receiving buffer as it was. *)
Theorem X11_paged_write_then_load_round_trip
        (fuel : nat) (st : state) (m m0 : AVRMEM) (page_size n_bytes : Z)
        (init : list byte_t) :
  stores (write_req m) (read_req m0) init ->
  is_flash m0 = is_flash m ->
  0 <= n_bytes ->
  n_bytes <= Z.of_nat (length (buf m)) ->
  n_bytes <= Z.of_nat (length (buf m0)) ->
  n_bytes <= Z.of_nat (length (image (write_req m) init (trace st))) ->
  0 < chunk_size st ->
  (paged m <> 0 -> 0 < page_size) ->
  (Z.to_nat n_bytes <= fuel)%nat ->
  exists st1 m' st2,
    usbtiny_paged_write fuel st m page_size n_bytes = Some (n_bytes, st1) /\
    usbtiny_paged_load fuel st1 m0 page_size n_bytes =
    Some (n_bytes, m', st2) /\
    firstn (Z.to_nat n_bytes) (buf m') = firstn (Z.to_nat n_bytes) (buf m) /\
    skipn (Z.to_nat n_bytes) (buf m') = skipn (Z.to_nat n_bytes) (buf m0).
Proof.
  intros Hstores Hkind Hn Hb Hb0 Hmem Hc Hps Hfuel.
  set (mem0 := image (write_req m) init (trace st)) in *.
  assert (Hne : read_req m0 <> write_req m)
    by (unfold read_req, write_req;
        destruct (is_flash m0), (is_flash m); discriminate).
  (* the write *)
  rewrite usbtiny_paged_write_loop. fold (write_req m).
  set (delay := if paged m =? 0 then _ else _).
  destruct (paged_write_entry_facts st m) as (Hce & _ & _).
  assert (Hentry : image (write_req m) init (trace (paged_write_entry st m))
                   = mem0).
  { unfold paged_write_entry. destruct (paged m =? 0); [ | reflexivity].
    unfold usb_control, usb_control_msg. cbn [snd log trace].
    rewrite image_app. cbn [fold_left image_step msg_req].
    destruct (usb_request_eq_dec USBTINY_POLL_BYTES (write_req m)) as [E | E];
      [ | reflexivity].
    unfold write_req in E. destruct (is_flash m); discriminate E. }
  destruct (paged_write_loop_image (write_req m) delay page_size n_bytes m
              init mem0 Hps Hb Hmem fuel 0 (paged_write_entry st m))
    as (st1 & Hrun1 & Hcs1 & Himg1);
    [ lia | lia | exact Hentry | rewrite Z.sub_0_r; exact Hfuel | ].
  rewrite Hrun1.
  set (mem1 := firstn (Z.to_nat n_bytes) (buf m)
               ++ skipn (Z.to_nat n_bytes) mem0) in *.
  assert (Hlen1 : length (firstn (Z.to_nat n_bytes) (buf m)) =
                  Z.to_nat n_bytes) by (apply firstn_length_le; lia).
  assert (Hmem1 : n_bytes <= Z.of_nat (length mem1)).
  { subst mem1. rewrite length_app, Hlen1, length_skipn. lia. }
  (* the read *)
  exists st1. unfold usbtiny_paged_load. fold (read_req m0).
  destruct (paged_load_loop_image (read_req m0) (write_req m) n_bytes init
              mem1 (buf m0) Hstores Hne Hmem1 Hb0 fuel 0 m0 st1)
    as (m' & st2 & Hrun2 & Hbuf2);
    [ lia | lia | exact Himg1 | reflexivity
    | rewrite Z.sub_0_r; exact Hfuel | ].
  rewrite Hrun2.
  exists m', st2. split; [reflexivity | ]. split; [reflexivity | ].
  assert (Hlen2 : length (firstn (Z.to_nat n_bytes) mem1) = Z.to_nat n_bytes)
    by (apply firstn_length_le; lia).
  rewrite Hbuf2. split.
  - rewrite (firstn_app_exact _ _ _ Hlen2). subst mem1.
    apply firstn_app_exact. exact Hlen1.
  - apply skipn_app_exact. exact Hlen2.
Qed.


(** *** The command on the wire *)

Lemma lor_shiftl_8 (hi lo : Z) :
  0 <= lo < 256 -> Z.lor (Z.shiftl hi 8) lo = hi * 256 + lo.
Proof.
  intros Hlo.
  assert (Hland : Z.land (Z.shiftl hi 8) lo = 0).
  { apply Z.bits_inj'. intros n Hn.
    rewrite Z.land_spec, Z.bits_0.
    destruct (Z.ltb_spec n 8) as [Hlt | Hge].
    - rewrite Z.shiftl_spec_low by exact Hlt. reflexivity.
    - destruct (Z.eq_dec lo 0) as [-> | Hnz];
        [rewrite Z.bits_0; apply andb_false_r | ].
      rewrite (Z.bits_above_log2 lo n); [apply andb_false_r | lia | ].
      apply Z.log2_lt_pow2; [lia | ].
      apply Z.lt_le_trans with (2 ^ 8); [exact (proj2 Hlo) | ].
      apply Z.pow_le_mono_r; lia. }
  rewrite <- Z.lxor_lor by exact Hland.
  rewrite <- Z.add_nocarry_lxor by exact Hland.
  rewrite Z.shiftl_mul_pow2 by lia. reflexivity.
Qed.

(** X12: [usbtiny_cmd] puts the four command bytes on the wire without
    loss: in its one SPI exchange, an inbound request for [sizeof(res)]
    bytes, [wValue] is [cmd[0] + 256 * cmd[1]] and [wIndex] is
    [cmd[2] + 256 * cmd[3]], both below 65536, so the adapter recovers
    each byte by division and remainder. *)
Theorem X12_command_bytes_reach_the_wire
        (st : state) (c0 c1 c2 c3 : byte_t) (res : list byte_t) :
  0 <= c0 < 256 -> 0 <= c1 < 256 -> 0 <= c2 < 256 -> 0 <= c3 < 256 ->
  exists msg n,
    trace (snd (usbtiny_cmd st [c0; c1; c2; c3] res)) =
    trace st ++ [EvUsb msg n] /\
    msg_dir msg = USB_ENDPOINT_IN /\
    msg_req msg = USBTINY_SPI /\
    msg_len msg = sizeof_res /\
    msg_val msg = c0 + 256 * c1 /\
    msg_index msg = c2 + 256 * c3 /\
    0 <= msg_val msg < 65536 /\ 0 <= msg_index msg < 65536 /\
    msg_val msg mod 256 = c0 /\ msg_val msg / 256 = c1 /\
    msg_index msg mod 256 = c2 /\ msg_index msg / 256 = c3.
Proof.
  intros H0 H1 H2 H3.
  unfold usbtiny_cmd, usb_in, usb_control_msg. cbn zeta.
  cbn [nth snd fst log trace with_cache_mem].
  rewrite !lor_shiftl_8 by assumption.
  eexists. eexists. split; [reflexivity | ].
  cbn [msg_dir msg_req msg_len msg_val msg_index].
  repeat split; try lia.
  - symmetry. apply Z.mod_unique_pos with (q := c1); lia.
  - symmetry. apply Z.div_unique_pos with (r := c0); lia.
  - symmetry. apply Z.mod_unique_pos with (q := c3); lia.
  - symmetry. apply Z.div_unique_pos with (r := c2); lia.
Qed.


(** *** The time of a transfer *)

(** An exchange whose timeout is the base timeout plus at most 69 ms. *)
Definition within_budget (e : event) : Prop :=
  match e with
  | EvUsb msg _ => USB_TIMEOUT <= msg_timeout msg <= USB_TIMEOUT + 69
  | _ => True
  end.

(** The halving of [usbtiny_set_chunk_size] bounds the product of the
    chunk size and the period. *)
Lemma chunk_period_product (period : Z) :
  SCK_MIN <= period <= SCK_MAX ->
  chunk_size_loop CHUNK_SIZE period * period <= 2160.
Proof.
  unfold SCK_MIN, SCK_MAX. intros Hp. rewrite chunk_size_loop_table.
  repeat match goal with
         | |- context [if ?a <=? ?b then _ else _] =>
             destruct (Z.leb_spec a b)
         end; lia.
Qed.

Lemma read_timeout_budget (chunk cs sck : Z) :
  0 <= chunk <= cs -> 0 < sck -> cs * sck <= 2160 ->
  USB_TIMEOUT <= USB_TIMEOUT + Z.quot (chunk * (32 * sck)) 1000
  <= USB_TIMEOUT + 69.
Proof.
  intros Hc Hs Hp.
  assert (Hx : 0 <= chunk * (32 * sck) < 1000 * 70) by nia.
  rewrite Z.quot_div_nonneg by lia.
  pose proof (Z.div_pos (chunk * (32 * sck)) 1000 (proj1 Hx) ltac:(lia)).
  pose proof (Z.div_lt_upper_bound (chunk * (32 * sck)) 1000 70
                                   ltac:(lia) (proj2 Hx)).
  lia.
Qed.

Lemma paged_load_loop_budget (req : usb_request) (n_bytes cs sck : Z) :
  0 < cs -> 0 < sck -> cs * sck <= 2160 ->
  forall (fuel : nat) (i : Z) (m : AVRMEM) (st : state),
    chunk_size st = cs -> sck_period st = sck ->
    i <= n_bytes ->
    (Z.to_nat (n_bytes - i) <= fuel)%nat ->
    exists m' st' evs,
      paged_load_loop fuel req n_bytes i m st = Some (m', st') /\
      trace st' = trace st ++ evs /\
      Forall within_budget evs.
Proof.
  intros Hcs Hsck Hprod fuel.
  induction fuel as [| fuel IH]; intros i m st Hc Hs Hle Hfuel.
  - exists m, st, []. rewrite paged_load_loop_done by lia.
    rewrite app_nil_r. repeat split. constructor.
  - destruct (Z.ltb_spec i n_bytes) as [Hlt | Hge].
    + rewrite (paged_load_loop_next fuel req n_bytes i m st Hlt).
      pose proof (load_chunk_bounds st n_bytes i ltac:(lia) Hlt) as Hb.
      assert (Hmin : load_chunk st n_bytes i <= cs)
        by (rewrite load_chunk_min; lia).
      destruct (IH (i + load_chunk st n_bytes i)
                   (with_buf m (store (buf m) i
                                      (load_received st req n_bytes i)))
                   (load_next st req n_bytes i))
        as (m' & st' & evs & Hrun & Htr & Hfa);
        [exact Hc | exact Hs | lia | lia | ].
      exists m', st'. eexists. split; [exact Hrun | ].
      split.
      * rewrite Htr. unfold load_next, report_progress. cbn [log trace].
        rewrite <- !app_assoc. reflexivity.
      * constructor; [ | constructor; [exact I | exact Hfa]].
        cbn [within_budget load_msg msg_timeout]. rewrite Hs.
        apply read_timeout_budget with (cs := cs); lia.
    + exists m, st, []. rewrite paged_load_loop_done by lia.
      rewrite app_nil_r. repeat split. constructor.
Qed.

(** X13: with the period in [SCK_MIN, SCK_MAX] and the chunk size derived
    from it, as [usbtiny_initialize] and [usbtiny_set_sck_period] leave
    them, the product of chunk size and period is at most 2160, and
    every exchange of [usbtiny_paged_load] gets a timeout between
    [USB_TIMEOUT] and [USB_TIMEOUT + 69] milliseconds. The bound is the
    same for every period; inside it the timeout is not monotone in the
    period (see [read_timeout_not_monotone]). *)
Theorem X13_paged_load_transfers_stay_within_budget
        (fuel : nat) (st : state) (m : AVRMEM) (page_size n_bytes : Z) :
  SCK_MIN <= sck_period st <= SCK_MAX ->
  chunk_size st = chunk_size_loop CHUNK_SIZE (sck_period st) ->
  0 <= n_bytes ->
  (Z.to_nat n_bytes <= fuel)%nat ->
  chunk_size st * sck_period st <= 2160 /\
  exists m' st' evs,
    usbtiny_paged_load fuel st m page_size n_bytes = Some (n_bytes, m', st') /\
    trace st' = trace st ++ evs /\
    Forall within_budget evs.
Proof.
  intros Hs Hc Hn Hfuel.
  pose proof (chunk_period_product (sck_period st) Hs) as Hprod.
  pose proof (chunk_size_loop_range (sck_period st)) as Hrange.
  rewrite <- Hc in Hprod, Hrange.
  split; [exact Hprod | ].
  unfold usbtiny_paged_load.
  destruct (paged_load_loop_budget
              (if is_flash m then USBTINY_FLASH_READ else USBTINY_EEPROM_READ)
              n_bytes (chunk_size st) (sck_period st)
              ltac:(lia) ltac:(unfold SCK_MIN in Hs; lia) Hprod
              fuel 0 m st eq_refl eq_refl Hn)
    as (m' & st' & evs & Hrun & Htr & Hfa);
    [rewrite Z.sub_0_r; exact Hfuel | ].
  exists m', st', evs. rewrite Hrun. repeat split; assumption.
Qed.


(** *** The paged operations and the cache *)

(** Two states with the same statics; only the trace may differ. *)
Definition same_statics (st st' : state) : Prop :=
  sck_period st' = sck_period st /\
  chunk_size st' = chunk_size st /\
  cache_mem st' = cache_mem st /\
  cache_base st' = cache_base st /\
  cache_buf st' = cache_buf st /\
  cache_disable st' = cache_disable st.

Lemma same_statics_refl (st : state) : same_statics st st.
Proof. repeat split. Qed.

Lemma same_statics_trans (a b c : state) :
  same_statics a b -> same_statics b c -> same_statics a c.
Proof.
  unfold same_statics. intros (?&?&?&?&?&?) (?&?&?&?&?&?).
  repeat split; congruence.
Qed.

Lemma paged_load_loop_statics (req : usb_request) (n_bytes : Z) :
  forall (fuel : nat) (i : Z) (m : AVRMEM) (st : state) m' st',
    paged_load_loop fuel req n_bytes i m st = Some (m', st') ->
    same_statics st st'.
Proof.
  induction fuel as [| fuel IH]; intros i m st m' st' Hrun.
  - cbn [paged_load_loop] in Hrun.
    destruct (i <? n_bytes); [discriminate | ].
    injection Hrun as _ <-. apply same_statics_refl.
  - destruct (Z.ltb_spec i n_bytes) as [Hlt | Hge].
    + rewrite (paged_load_loop_next fuel req n_bytes i m st Hlt) in Hrun.
      apply IH in Hrun.
      apply same_statics_trans with (b := load_next st req n_bytes i);
        [repeat split | exact Hrun].
    + rewrite paged_load_loop_done in Hrun by lia.
      injection Hrun as _ <-. apply same_statics_refl.
Qed.

Lemma paged_write_loop_statics (req : usb_request)
      (delay page_size n_bytes : Z) (m : AVRMEM) :
  forall (fuel : nat) (i : Z) (st st' : state),
    paged_write_loop fuel req delay page_size n_bytes i m st = Some st' ->
    same_statics st st'.
Proof.
  induction fuel as [| fuel IH]; intros i st st' Hrun.
  - cbn [paged_write_loop] in Hrun.
    destruct (i <? n_bytes); [discriminate | ].
    injection Hrun as <-. apply same_statics_refl.
  - destruct (Z.ltb_spec i n_bytes) as [Hlt | Hge].
    + rewrite (paged_write_loop_next fuel req delay page_size n_bytes i m st
                                     Hlt) in Hrun.
      apply IH in Hrun.
      apply same_statics_trans
        with (b := write_next st req delay m page_size n_bytes i);
        [ | exact Hrun].
      unfold write_next, report_progress, avr_write_page. cbn zeta.
      destruct (commit_due m page_size n_bytes _); repeat split.
    + rewrite paged_write_loop_done in Hrun by lia.
      injection Hrun as <-. apply same_statics_refl.
Qed.

Lemma read_byte_hit_after (st st' : state) (m : AVRMEM) (addr : Z) :
  same_statics st st' ->
  cache_disable st <= 0 ->
  cacheable m = true ->
  cache_holds st m addr ->
  usbtiny_read_byte st' m addr =
  (0, Some (nth (Z.to_nat (addr - base_of st addr)) (cache_buf st) 0), st').
Proof.
  intros (_ & Hcs & Hcm & Hcb & Hbuf & Hcd) Hen Hc [Hmem Hbase].
  assert (Hb : base_of st' addr = base_of st addr)
    by (unfold base_of; rewrite Hcs; reflexivity).
  rewrite usbtiny_read_byte_hit.
  - rewrite Hb, Hbuf. reflexivity.
  - lia.
  - exact Hc.
  - split; [congruence | rewrite Hb; congruence].
Qed.

(** The paged operations return with the statics untouched. *)
Lemma usbtiny_paged_load_statics (fuel : nat) (st : state) (m : AVRMEM)
      (page_size n_bytes : Z) :
  0 <= n_bytes ->
  0 < chunk_size st ->
  (Z.to_nat n_bytes <= fuel)%nat ->
  exists m' st',
    usbtiny_paged_load fuel st m page_size n_bytes = Some (n_bytes, m', st') /\
    same_statics st st'.
Proof.
  intros Hn Hc Hfuel. unfold usbtiny_paged_load.
  set (req := if is_flash m then _ else _).
  assert (Hreq : req = USBTINY_FLASH_READ \/ req = USBTINY_EEPROM_READ)
    by (subst req; destruct (is_flash m); auto).
  destruct (paged_load_loop_total requested req n_bytes requested_length
              Hreq fuel 0 m st Hc Hn)
    as (m' & st' & Hrun & _);
    [rewrite Z.sub_0_r; exact Hfuel | ].
  exists m', st'. rewrite Hrun. split; [reflexivity | ].
  apply (paged_load_loop_statics req n_bytes fuel 0 m st m' st' Hrun).
Qed.

Lemma usbtiny_paged_write_statics (fuel : nat) (st : state) (m : AVRMEM)
      (page_size n_bytes : Z) :
  0 <= n_bytes ->
  0 < chunk_size st ->
  (paged m <> 0 -> 0 < page_size) ->
  (Z.to_nat n_bytes <= fuel)%nat ->
  exists st',
    usbtiny_paged_write fuel st m page_size n_bytes = Some (n_bytes, st') /\
    same_statics st st'.
Proof.
  intros Hn Hc Hps Hfuel. rewrite usbtiny_paged_write_loop.
  set (req := if is_flash m then _ else _).
  set (delay := if paged m =? 0 then _ else _).
  assert (Hreq : req = USBTINY_FLASH_WRITE \/ req = USBTINY_EEPROM_WRITE)
    by (subst req; destruct (is_flash m); auto).
  assert (Hentry : same_statics st (paged_write_entry st m))
    by (unfold paged_write_entry; destruct (paged m =? 0); repeat split).
  assert (Hc' : 0 < chunk_size (paged_write_entry st m))
    by (destruct Hentry as (_ & -> & _); exact Hc).
  destruct (paged_write_loop_total requested req delay page_size n_bytes m
              requested_length Hreq Hps fuel 0 _ Hc' Hn)
    as (st' & Hrun & _);
    [rewrite Z.sub_0_r; exact Hfuel | ].
  exists st'. rewrite Hrun. split; [reflexivity | ].
  apply same_statics_trans with (b := paged_write_entry st m);
    [exact Hentry | ].
  apply (paged_write_loop_statics req delay page_size n_bytes m fuel 0 _ _
                                  Hrun).
Qed.

(** X14: [usbtiny_paged_load], and [usbtiny_paged_write] on a region that
    is not paged, leave the cache entry as it was: a read of a byte that
    the cache held before the operation is answered after it from the
    cache, with the byte cached before and without an exchange. *)
Theorem X14_paged_operations_keep_the_cache
        (fuel : nat) (st : state) (m mc : AVRMEM) (page_size n_bytes addr : Z) :
  0 <= n_bytes ->
  0 < chunk_size st ->
  (Z.to_nat n_bytes <= fuel)%nat ->
  cache_disable st <= 0 ->
  cacheable mc = true ->
  cache_holds st mc addr ->
  let cached := nth (Z.to_nat (addr - base_of st addr)) (cache_buf st) 0 in
  (exists m' st1,
     usbtiny_paged_load fuel st m page_size n_bytes = Some (n_bytes, m', st1) /\
     usbtiny_read_byte st1 mc addr = (0, Some cached, st1)) /\
  (paged m = 0 ->
   exists st1,
     usbtiny_paged_write fuel st m page_size n_bytes = Some (n_bytes, st1) /\
     usbtiny_read_byte st1 mc addr = (0, Some cached, st1)).
Proof.
  intros Hn Hc Hfuel Hen Hcc Hh cached. split.
  - destruct (usbtiny_paged_load_statics fuel st m page_size n_bytes Hn Hc Hfuel)
      as (m' & st1 & Hrun & Hsame).
    exists m', st1. split; [exact Hrun | ].
    apply read_byte_hit_after; assumption.
  - intros Hnp.
    destruct (usbtiny_paged_write_statics fuel st m page_size n_bytes Hn Hc
                             (fun H => False_ind _ (H Hnp)) Hfuel)
      as (st1 & Hrun & Hsame).
    exists st1. split; [exact Hrun | ].
    apply read_byte_hit_after; assumption.
Qed.


(** *** Opening the adapter

    [usb_handle] is the remaining static; [usbtiny_open] is the one
    function that sets it from the bus lists of libusb. *)

Definition USBDEV_VENDOR : Z := 6017.   (* 0x1781 *)
Definition USBDEV_PRODUCT : Z := 3231.  (* 0x0C9F *)

(** [struct usb_device]: the two descriptor fields that are compared, and
    [dev_id] for the device itself. *)
Record usb_device : Type := mk_usb_device {
  idVendor : Z;
  idProduct : Z;
  dev_id : nat
}.

(** libusb's [usb_open]: the handle, [None] for a null pointer. *)
Variable usb_open : usb_device -> option nat.

Definition is_usbtiny (dev : usb_device) : bool :=
  (idVendor dev =? USBDEV_VENDOR) && (idProduct dev =? USBDEV_PRODUCT).

(** The inner loop over [bus->devices]: [Some] when the function returns
    from inside the loop, with the status and the new [usb_handle]. *)
Fixpoint open_devices (devs : list usb_device) : option (Z * option nat) :=
  match devs with
  | [] => None
  | dev :: devs =>
      if is_usbtiny dev then
        let usb_handle := usb_open dev in
        match usb_handle with
        | None => Some (-1, usb_handle)
        | Some _ => Some (0, usb_handle)
        end
      else open_devices devs
  end.

(** The outer loop over [usb_busses], and the final [return -1]. *)
Fixpoint open_busses (usb_handle : option nat)
         (busses : list (list usb_device)) : Z * option nat :=
  match busses with
  | [] => (-1, usb_handle)
  | bus :: busses =>
      match open_devices bus with
      | Some r => r
      | None => open_busses usb_handle busses
      end
  end.

Definition usbtiny_open (usb_handle : option nat)
           (usb_busses : list (list usb_device)) : Z * option nat :=
  open_busses usb_handle usb_busses.

Lemma open_devices_find (devs : list usb_device) :
  open_devices devs =
  match find is_usbtiny devs with
  | Some dev =>
      match usb_open dev with
      | Some h => Some (0, Some h)
      | None => Some (-1, None)
      end
  | None => None
  end.
Proof.
  induction devs as [| dev devs IH]; [reflexivity | ].
  cbn [open_devices find]. destruct (is_usbtiny dev); [ | exact IH].
  destruct (usb_open dev); reflexivity.
Qed.

Lemma find_app_first (f : usb_device -> bool) (l1 l2 : list usb_device) :
  find f (l1 ++ l2) =
  match find f l1 with Some d => Some d | None => find f l2 end.
Proof.
  induction l1 as [| d l1 IH]; [reflexivity | ].
  cbn [app find]. destruct (f d); [reflexivity | exact IH].
Qed.

(** X15: [usbtiny_open] looks at the devices bus by bus and stops at the
    first one whose vendor and product are those of the adapter. It
    returns 0 with that device's handle when [usb_open] gives one; it
    returns -1 with a null handle when [usb_open] fails, without trying a
    later device; and it returns -1 with [usb_handle] unchanged when no
    device matches. *)
Theorem X15_open_takes_the_first_adapter
        (usb_handle : option nat) (usb_busses : list (list usb_device)) :
  usbtiny_open usb_handle usb_busses =
  match find is_usbtiny (concat usb_busses) with
  | Some dev =>
      match usb_open dev with
      | Some h => (0, Some h)
      | None => (-1, None)
      end
  | None => (-1, usb_handle)
  end.
Proof.
  unfold usbtiny_open.
  induction usb_busses as [| bus busses IH]; [reflexivity | ].
  cbn [open_busses concat].
  rewrite open_devices_find, find_app_first.
  destruct (find is_usbtiny bus) as [dev | ].
  - destruct (usb_open dev); reflexivity.
  - exact IH.
Qed.


(** *** What the adapter is told about the clock *)

(** A power-up notification carries the period [sck]. *)
Definition powerup_with (sck : Z) (e : event) : Prop :=
  match e with
  | EvUsb msg _ => msg_req msg = USBTINY_POWERUP -> msg_val msg = sck
  | _ => True
  end.

Lemma timing_setup_trace (st : state) (pgm : PROGRAMMER) :
  exists n,
    trace (timing_setup st pgm) =
    trace st
    ++ [EvUsb (mk_msg USB_ENDPOINT_IN USBTINY_POWERUP
                      (sck_period (timing_setup st pgm)) RESET_LOW []
                      0 USB_TIMEOUT) n].
Proof.
  unfold timing_setup. destruct (bitclock_positive pgm).
  - unfold usbtiny_set_sck_period. cbn [snd].
    destruct (v_clamp_cases (bitclock_usec pgm)) as (sck & Hsck).
    rewrite Hsck. eexists. reflexivity.
  - eexists. reflexivity.
Qed.

(** X16: the adapter is told the period the driver keeps. Every power-up
    notification that [usbtiny_initialize] sends, the first one and those
    of the reset pulse, carries the clock period that the driver holds
    when the function returns; the first thing sent is the notification
    of that period with the reset line low. *)
Theorem X16_initialize_tells_the_adapter_the_period
        (st : state) (pgm : PROGRAMMER) (p : AVRPART) (res : list byte_t) :
  let st' := snd (usbtiny_initialize st pgm p res) in
  exists n evs,
    trace st' =
    trace st
    ++ EvUsb (mk_msg USB_ENDPOINT_IN USBTINY_POWERUP (sck_period st')
                     RESET_LOW [] 0 USB_TIMEOUT) n
    :: evs /\
    Forall (powerup_with (sck_period st')) evs.
Proof.
  intros st'.
  destruct (timing_setup_trace st pgm) as (n & Htr).
  destruct (usbtiny_initialize_frame st pgm p res) as (Hs & _).
  fold st' in Hs. rewrite Hs. exists n.
  assert (Hspi : forall msg k,
             msg_req msg = USBTINY_SPI ->
             powerup_with (sck_period (timing_setup st pgm)) (EvUsb msg k))
    by (intros msg k Hreq; cbn; rewrite Hreq; discriminate).
  subst st'.
  destruct (usbtiny_initialize_runs st pgm p res)
    as [[_ ->] | (msg1 & n1 & r1 & res1 & Hreq1 & _ & Hcase)].
  - exists [EvSleep 50000]. cbn [snd usleep log trace]. rewrite Htr.
    rewrite <- app_assoc. split; [reflexivity | ].
    repeat constructor.
  - cbn zeta in Hcase.
    destruct Hcase as [[_ ->] | (_ & k1 & k2 & msg2 & n2 & r2 & Hreq2 & _ & ->)].
    + exists [EvSleep 50000; EvUsb msg1 n1].
      cbn [snd usleep log trace with_cache_mem]. rewrite Htr.
      rewrite <- !app_assoc. split; [reflexivity | ].
      repeat constructor. apply Hspi. exact Hreq1.
    + eexists. cbn [snd usleep log trace with_cache_mem sck_period].
      rewrite Htr. rewrite <- !app_assoc. cbn [app].
      split; [reflexivity | ].
      repeat constructor; try (apply Hspi; assumption);
        cbn; intros _; reflexivity.
Qed.


(** *** The command relay and the adapter's reply *)

(** [usbtiny_cmd] written out: one request [spi_msg] for [sizeof(res)]
    bytes; [res] is cleared, then receives the bytes the adapter
    delivered; the status compares the count the adapter reported with
    [sizeof(res)] and [res[2]] with [cmd[1]]. *)
Lemma usbtiny_cmd_run (st : state) (cmd res : list byte_t) :
  let r := device (trace st) (spi_msg st cmd) in
  let rx := firstn (Z.to_nat (Z.min (reply_n r) sizeof_res)) (reply_data r) in
  let res' :=
    firstn 4 (store (firstn 4 (store res 0 (repeat 0 (Z.to_nat sizeof_res))))
                    0 rx) in
  usbtiny_cmd st cmd res =
  (if (reply_n r =? sizeof_res) && (nth 2 res' 0 =? nth 1 cmd 0)
   then 1 else 0,
   res', log (EvUsb (spi_msg st cmd) (reply_n r)) (with_cache_mem None st)).
Proof.
  unfold usbtiny_cmd, usb_in, usb_control_msg, spi_msg. cbn zeta.
  cbn [trace with_cache_mem sck_period].
  destruct (reply_n _ =? sizeof_res); reflexivity.
Qed.

Lemma store_front_nth (dst src : list byte_t) (i : nat) :
  (i < length src)%nat -> nth i (store dst 0 src) 0 = nth i src 0.
Proof.
  intros Hi. unfold store. cbn [Z.to_nat firstn app].
  apply app_nth1. exact Hi.
Qed.

(** After a complete exchange, [res[2]] is the third byte the adapter
    delivered. *)
Lemma usbtiny_cmd_third_byte (st : state) (cmd res : list byte_t) :
  let r := device (trace st) (spi_msg st cmd) in
  3 <= sizeof_res ->
  reply_n r = sizeof_res ->
  (3 <= length (reply_data r))%nat ->
  nth 2 (snd (fst (usbtiny_cmd st cmd res))) 0 = nth 2 (reply_data r) 0.
Proof.
  intros r Hsz Hn Hlen.
  pose proof (usbtiny_cmd_run st cmd res) as Hrun. cbn zeta in Hrun.
  rewrite Hrun. cbn [fst snd]. fold r. rewrite Hn, Z.min_id.
  rewrite nth_firstn_below by lia.
  rewrite store_front_nth by (rewrite length_firstn; lia).
  apply nth_firstn_below. lia.
Qed.

(** The status of [usbtiny_cmd] in terms of the adapter's reply: 1 exactly
    when the adapter reported [sizeof(res)] bytes and the third byte it
    delivered is [cmd[1]], and 0 otherwise. A complete reply carries at
    least the three bytes that the comparison reads. *)
Lemma usbtiny_cmd_succeeds_iff (st : state) (cmd res : list byte_t) :
  let r := device (trace st) (spi_msg st cmd) in
  3 <= sizeof_res ->
  (reply_n r = sizeof_res -> (3 <= length (reply_data r))%nat) ->
  (fst (fst (usbtiny_cmd st cmd res)) = 1 <->
   reply_n r = sizeof_res /\ nth 2 (reply_data r) 0 = nth 1 cmd 0) /\
  (fst (fst (usbtiny_cmd st cmd res)) <> 1 ->
   fst (fst (usbtiny_cmd st cmd res)) = 0).
Proof.
  intros r Hsz Hlen.
  pose proof (usbtiny_cmd_third_byte st cmd res Hsz) as Hbyte.
  cbn zeta in Hbyte. fold r in Hbyte.
  pose proof (usbtiny_cmd_run st cmd res) as Hrun. cbn zeta in Hrun.
  fold r in Hrun. rewrite Hrun in *. cbn [fst snd] in *.
  destruct (Z.eqb_spec (reply_n r) sizeof_res) as [En | En].
  - rewrite (Hbyte En (Hlen En)).
    destruct (Z.eqb_spec (nth 2 (reply_data r) 0) (nth 1 cmd 0))
      as [Eb | Eb]; cbn [andb]; intuition lia.
  - cbn [andb]. intuition lia.
Qed.

(** *** The bit clock as a [double] *)

(** The period stored for a bit clock of [v] seconds is the clamp of the
    converted [v * 1e6 + 0.5], and lies in [SCK_MIN, SCK_MAX]. *)
Lemma usbtiny_set_sck_period_of_double_clamps (st : state) (v : float) :
  let st' := snd (usbtiny_set_sck_period_of_double st v) in
  sck_period st' =
  clamp SCK_MIN SCK_MAX (int_of_double (v * 1e6 + 0.5)%float) /\
  SCK_MIN <= sck_period st' <= SCK_MAX.
Proof.
  unfold usbtiny_set_sck_period_of_double, clamp.
  destruct (usbtiny_set_sck_period_clamps
              st (int_of_double (v * 1e6 + 0.5)%float)) as (Hv & Hr & _).
  split; [exact Hv | exact Hr].
Qed.

End Driver.

(** ** Concrete sessions

    Adapters, parts and regions on which the properties above are run. *)

(** An adapter that completes every exchange and sends [165] bytes. *)
Definition full_device : list event -> usb_msg -> usb_reply :=
  fun _ msg => mk_reply (msg_len msg) (repeat 165 (Z.to_nat (msg_len msg))).

(** An adapter that fails every exchange. *)
Definition dead_device : list event -> usb_msg -> usb_reply :=
  fun _ _ => mk_reply (-1) [].

(** An adapter that answers an SPI command with the echo of its second
    byte in the third byte of the response. *)
Definition echo_device : list event -> usb_msg -> usb_reply :=
  fun _ msg =>
    mk_reply 4 [0; 0; Z.shiftr (msg_val msg) 8; 0].

Definition no_default_read : list event -> AVRMEM -> Z -> Z * option byte_t :=
  fun _ _ _ => (-1, None).

(** A part without any template, and one whose every operation sends the
    programming-enable bytes. *)
Definition bare_part : AVRPART unit := mk_part unit (fun _ => None) 0.
Definition plain_part : AVRPART unit := mk_part unit (fun _ => Some tt) 9000.
Definition pgm_enable_bits : unit -> list byte_t -> list byte_t :=
  fun _ _ => [172; 83; 0; 0].

Definition fresh : state := session 10 128.
Definition flash1k : AVRMEM := region 1 "flash" 1 1024.
Definition eeprom512 : AVRMEM := region 2 "eeprom" 0 512.

(** A session whose cache holds the first chunk of [flash1k]. *)
Definition warm : state :=
  mk_state 10 128 (Some 1%nat) 0 (repeat 7 128%nat) 0 [].

(** C1 (what the code does): with an adapter that fails every exchange,
    [usbtiny_paged_load] of 256 bytes finds its first [usb_in] returning
    -1, goes on to the second chunk all the same, and returns 256. *)
Theorem C1_paged_load_ignores_short_transfer :
  fst (fst (usb_in dead_device fresh USBTINY_FLASH_READ 0 0 128 320)) = -1 /\
  exists m' st',
    usbtiny_paged_load dead_device 2 fresh (region 1 "flash" 1 256) 64 256 =
    Some (256, m', st') /\
    chunks is_read_exchange (trace st') = [(0, 128); (128, 128)] /\
    total moved is_read_exchange (trace st') = -2.
Proof.
  split; [reflexivity | ].
  do 2 eexists. split; [vm_compute; reflexivity | ].
  split; vm_compute; reflexivity.
Qed.

(** The theorem of C5 at the periods 10 and 200. *)
Lemma C5_witness :
  (1 <= 10 <= 250 /\ 1 <= 200 <= 250) /\
  chunk_size (usbtiny_set_chunk_size fresh 200) <=
  chunk_size (usbtiny_set_chunk_size fresh 10).
Proof.
  split; [lia | ].
  destruct (C5_chunk_size_power_of_two_monotone fresh fresh 10 200)
    as (_ & _ & Hmono & _); [lia | lia | ].
  apply Hmono. lia.
Defined.

(** The theorem of C10 on a part without templates. *)
Lemma C10_witness :
  op unit bare_part 7 = None /\
  fst (usbtiny_initialize full_device 4 unit pgm_enable_bits 7 fresh
                          (mk_pgm false 0) bare_part [0; 0; 0; 0]) = 0.
Proof.
  split; [reflexivity | ].
  apply (C10_initialize_without_template_returns_0 full_device 4 unit
           pgm_enable_bits 7 fresh (mk_pgm false 0) bare_part [0; 0; 0; 0]).
  reflexivity.
Defined.



(** The theorem of C8 on an adapter that fails every exchange. *)
Lemma C8_witness :
  (cache_disable fresh <= 0 /\ cacheable eeprom512 = true /\
   fst (fst (refill dead_device fresh eeprom512 40)) = -1) /\
  fst (fst (usbtiny_read_byte dead_device no_default_read fresh eeprom512 40))
  = -1 /\
  cache_mem (snd (usbtiny_read_byte dead_device no_default_read fresh
                                    eeprom512 40)) = None.
Proof.
  assert (Hen : cache_disable fresh <= 0) by (cbn; lia).
  assert (Hc : cacheable eeprom512 = true) by reflexivity.
  assert (Hm : ~ cache_holds fresh eeprom512 40)
    by (intros [H _]; discriminate H).
  assert (Hbad : fst (fst (refill dead_device fresh eeprom512 40)) <> 0)
    by (vm_compute; discriminate).
  split; [split; [exact Hen | split; [exact Hc | reflexivity]] | ].
  destruct (C8_failed_refill_invalidates_cache dead_device no_default_read
              fresh eeprom512 flash1k 40 5 Hen Hc Hc Hm Hbad)
    as (Hrc & _ & Hnone & _).
  split; [exact Hrc | exact Hnone].
Defined.

(** The theorem of C9 on a write of 300 bytes. *)
Lemma C9_witness :
  (0 <= 300 /\ 0 < chunk_size fresh /\ (Z.to_nat 300 <= 300)%nat) /\
  exists st',
    usbtiny_paged_write full_device 300 fresh (region 1 "flash" 1 300) 64 300
    = Some (300, st') /\
    total requested is_write_exchange (trace st') =
    total requested is_write_exchange (trace fresh) + 300.
Proof.
  assert (H0 : 0 <= 300) by lia.
  assert (Hc : 0 < chunk_size fresh) by (cbn; lia).
  assert (Hf : (Z.to_nat 300 <= 300)%nat)
    by (apply Nat.eq_le_incl; reflexivity).
  split; [exact (conj H0 (conj Hc Hf)) | ].
  destruct (C9_paged_transfers_cover_n_bytes full_device 300 fresh
              (region 1 "flash" 1 300) 64 300 H0 Hc
              (fun _ => ltac:(lia)) Hf)
    as (_ & (st' & Hrun & Htot & _) & _).
  exists st'. split; [exact Hrun | exact Htot].
Defined.

(** The theorem of C4 on 300 bytes in pages of 64: five commits. *)
Lemma C4_witness :
  (0 <= 300 /\ 0 < chunk_size fresh /\ (Z.to_nat 300 <= 300)%nat /\
   (write_cap fresh (region 1 "flash" 1 300) 64 | 64)) /\
  exists st',
    usbtiny_paged_write full_device 300 fresh (region 1 "flash" 1 300) 64 300
    = Some (300, st') /\
    count is_write_page (trace st') =
    count is_write_page (trace fresh) + 5.
Proof.
  assert (H0 : 0 <= 300) by lia.
  assert (Hc : 0 < chunk_size fresh) by (cbn; lia).
  assert (Hf : (Z.to_nat 300 <= 300)%nat)
    by (apply Nat.eq_le_incl; reflexivity).
  assert (Hd : (write_cap fresh (region 1 "flash" 1 300) 64 | 64))
    by (exists 1; reflexivity).
  assert (HP : 0 < 64) by lia.
  split; [exact (conj H0 (conj Hc (conj Hf Hd))) | ].
  destruct (C4_page_commit_count full_device 300 fresh
              (region 1 "flash" 1 300) 64 300 H0 Hc
              (fun _ => conj HP Hd) Hf)
    as ((st' & Hrun & Hcnt) & _).
  exists st'. split; [exact Hrun | exact Hcnt].
Defined.

(** C4, as the specification words it, fails twice: the last chunk of the
    300-byte scenario has 44 bytes, not 12; and with a page size that the
    chunk size does not divide (12 against 8) a write of 24 bytes, two
    pages, commits once. *)
Lemma C4_counterexample :
  (exists st',
     usbtiny_paged_write full_device 5 fresh (region 1 "flash" 1 300) 64 300 =
     Some (300, st') /\
     chunks is_write_exchange (trace st') =
     [(0, 64); (64, 64); (128, 64); (192, 64); (256, 44)] /\
     chunks is_write_exchange (trace st') <>
     [(0, 64); (64, 64); (128, 64); (192, 64); (256, 12)]) /\
  (exists st',
     usbtiny_paged_write full_device 3 (session 200 8)
                         (region 1 "flash" 1 24) 12 24 =
     Some (24, st') /\
     count is_write_page (trace st') = 1 /\
     ceil_div 24 12 = 2).
Proof.
  split.
  - eexists. split; [vm_compute; reflexivity | ].
    split; [vm_compute; reflexivity | vm_compute; discriminate].
  - eexists. split; [vm_compute; reflexivity | ].
    split; vm_compute; reflexivity.
Qed.

(** Where a pointer has 8 bytes, [sizeof(res)] is 8: the relay asks for 8
    bytes and takes a complete 4-byte response with the right echo for a
    failure. *)
Example usbtiny_cmd_with_8_byte_pointers :
  fst (fst (usbtiny_cmd echo_device 8 fresh [172; 83; 0; 0] [9; 9; 9; 9])) = 0.
Proof. reflexivity. Qed.

(** C2: [usbtiny_avr_op] returns the error -1 when the part has no
    template for the operation, and otherwise is [usbtiny_cmd] on the
    bytes of the template. [usbtiny_cmd] sends the one request [spi_msg]
    and returns 1 exactly when the adapter reported [sizeof(res)] bytes
    and the third byte it delivered is [cmd[1]], and 0 in every other
    case. [res] is a parameter declared [byte_t res[4]], so [sizeof(res)]
    is the size of a pointer, not of the array. With 4-byte pointers that
    is the 4 bytes of the response, and a 4-byte reply with the echo
    succeeds. With 8-byte pointers the relay asks for 8 bytes: the same
    complete 4-byte reply, echo in place and copied to [res], is taken for
    a failure. *)
Theorem C2_command_relay_compares_with_sizeof_res :
  (forall device sizeof_res OPCODE avr_set_bits st (p : AVRPART OPCODE) o res,
     (op OPCODE p o = None ->
      usbtiny_avr_op device sizeof_res OPCODE avr_set_bits st p o res =
      (-1, res, st)) /\
     (forall t, op OPCODE p o = Some t ->
        usbtiny_avr_op device sizeof_res OPCODE avr_set_bits st p o res =
        usbtiny_cmd device sizeof_res st (avr_set_bits t [0; 0; 0; 0]) res)) /\
  (forall device sizeof_res st cmd res,
     let r := device (trace st) (spi_msg sizeof_res st cmd) in
     let status := fst (fst (usbtiny_cmd device sizeof_res st cmd res)) in
     3 <= sizeof_res ->
     (reply_n r = sizeof_res -> (3 <= length (reply_data r))%nat) ->
     trace (snd (usbtiny_cmd device sizeof_res st cmd res)) =
     trace st ++ [EvUsb (spi_msg sizeof_res st cmd) (reply_n r)] /\
     msg_req (spi_msg sizeof_res st cmd) = USBTINY_SPI /\
     msg_len (spi_msg sizeof_res st cmd) = sizeof_res /\
     (status = 1 <->
      reply_n r = sizeof_res /\ nth 2 (reply_data r) 0 = nth 1 cmd 0) /\
     (status <> 1 -> status = 0)) /\
  (let r := echo_device (trace fresh) (spi_msg 4 fresh [172; 83; 0; 0]) in
   reply_n r = 4 /\ nth 2 (reply_data r) 0 = nth 1 [172; 83; 0; 0] 0 /\
   usbtiny_cmd echo_device 4 fresh [172; 83; 0; 0] [9; 9; 9; 9] =
   (1, [0; 0; 83; 0], log (EvUsb (spi_msg 4 fresh [172; 83; 0; 0]) 4) fresh)) /\
  (let r := echo_device (trace fresh) (spi_msg 8 fresh [172; 83; 0; 0]) in
   reply_n r = 4 /\ nth 2 (reply_data r) 0 = nth 1 [172; 83; 0; 0] 0 /\
   usbtiny_cmd echo_device 8 fresh [172; 83; 0; 0] [9; 9; 9; 9] =
   (0, [0; 0; 83; 0], log (EvUsb (spi_msg 8 fresh [172; 83; 0; 0]) 4) fresh)).
Proof.
  split; [ | split; [ | split]].
  - intros device sizeof_res OPCODE avr_set_bits st p o res. split.
    + intros Hop. unfold usbtiny_avr_op. rewrite Hop. reflexivity.
    + intros t Hop. unfold usbtiny_avr_op. rewrite Hop. reflexivity.
  - intros device sizeof_res st cmd res r status Hsz Hlen.
    split; [ | split; [reflexivity | split; [reflexivity | ]]].
    + pose proof (usbtiny_cmd_run device sizeof_res st cmd res) as Hrun.
      cbn zeta in Hrun. rewrite Hrun. reflexivity.
    + exact (usbtiny_cmd_succeeds_iff device sizeof_res st cmd res Hsz Hlen).
  - cbn zeta. repeat split; vm_compute; reflexivity.
  - cbn zeta. repeat split; vm_compute; reflexivity.
Qed.

(** The status part of C2 where pointers have 8 bytes, on the adapter that
    answers with 4 bytes and the echo: the relay returns 0. *)
Lemma C2_witness :
  (3 <= 8 /\
   reply_n (echo_device (trace fresh) (spi_msg 8 fresh [172; 83; 0; 0])) = 4) /\
  fst (fst (usbtiny_cmd echo_device 8 fresh [172; 83; 0; 0] [9; 9; 9; 9])) = 0.
Proof.
  assert (Hsz : 3 <= 8) by lia.
  split; [split; [exact Hsz | reflexivity] | ].
  destruct C2_command_relay_compares_with_sizeof_res as (_ & Hcmd & _).
  destruct (Hcmd echo_device 8 fresh [172; 83; 0; 0] [9; 9; 9; 9] Hsz)
    as (_ & _ & _ & Hiff & Hzero).
  - intros Hn. vm_compute in Hn. discriminate Hn.
  - apply Hzero. intros H1. apply Hiff in H1. destruct H1 as (Hn & _).
    vm_compute in Hn. discriminate Hn.
Defined.

(** C6: the period stored for a bit clock of [v] seconds is the clamp to
    [SCK_MIN, SCK_MAX] of [(int) (v * 1e6 + 0.5)]. On requests whose
    microseconds an [int] holds this is the clamp of the rounded
    [v * 1e6], as on 2^-17 s, 2^-10 s, 2147 s, -1 s and 0 s. The
    conversion comes before the clamp: at 5000 s the sum is
    5000000000.5, no [int], the conversion gives [INT_MIN], and the
    period stored is [SCK_MIN] = 1 where the clamp of the rounded
    [v * 1e6] is [SCK_MAX] = 250. *)
Theorem C6_bit_clock_is_converted_before_the_clamp :
  (forall device st v,
     let st' := snd (usbtiny_set_sck_period_of_double device st v) in
     sck_period st' =
     clamp SCK_MIN SCK_MAX (int_of_double (v * 1e6 + 0.5)%float) /\
     SCK_MIN <= sck_period st' <= SCK_MAX) /\
  (map requested_sck_period
       [0.00000762939453125; 0.0009765625; 2147; -1; 0]%float =
   [Some 8; Some 250; Some 250; Some 1; Some 1] /\
   forall device st,
     map (fun v => sck_period
                     (snd (usbtiny_set_sck_period_of_double device st v)))
         [0.00000762939453125; 0.0009765625; 2147; -1; 0]%float =
     [8; 250; 250; 1; 1]) /\
  (double_round (5000 * 1e6)%float = Some 5000000000 /\
   double_trunc (5000 * 1e6 + 0.5)%float = Some 5000000000 /\
   INT_MAX < 5000000000 /\
   int_of_double (5000 * 1e6 + 0.5)%float = INT_MIN /\
   requested_sck_period 5000%float = Some 250 /\
   forall device st,
     sck_period (snd (usbtiny_set_sck_period_of_double device st 5000%float))
     = 1).
Proof.
  split; [ | split].
  - intros device st v.
    exact (usbtiny_set_sck_period_of_double_clamps device st v).
  - split; [vm_compute; reflexivity | ].
    intros device st. cbn [map].
    rewrite !(proj1 (usbtiny_set_sck_period_of_double_clamps device st _)).
    vm_compute. reflexivity.
  - do 5 (split; [vm_compute; reflexivity | ]).
    intros device st.
    rewrite (proj1 (usbtiny_set_sck_period_of_double_clamps device st _)).
    vm_compute. reflexivity.
Qed.

(** The timeout of the first exchange of a paged load at the periods 1,
    16 and 17: inside the bound of X13 it rises with the period, then
    falls where the chunk size is halved. *)
Example read_timeout_not_monotone :
  map (fun p => msg_timeout
                  (load_msg (session p (chunk_size_loop CHUNK_SIZE p))
                            USBTINY_FLASH_READ 1024 0))
      [1; 16; 17] = [504; 565; 534].
Proof. vm_compute. reflexivity. Qed.

(** ** Runs of the further properties *)

(** An adapter that answers every read from a fixed memory. *)
Definition memory_device (mem : list byte_t)
  : list event -> usb_msg -> usb_reply :=
  fun _ msg => mk_reply (msg_len msg)
                        (slice mem (msg_index msg) (msg_len msg)).

(** An adapter that keeps what the requests [wreq] wrote. *)
Definition storing_device (wreq : usb_request) (init : list byte_t)
  : list event -> usb_msg -> usb_reply :=
  fun tr msg => mk_reply (msg_len msg)
                         (slice (image wreq init tr) (msg_index msg)
                                (msg_len msg)).

(** A region whose buffer holds the bytes 1, 2, ..., [len]. *)
Definition counting (id : nat) (d : string) (pg : Z) (len : nat) : AVRMEM :=
  mk_mem id d (Z.of_nat len) pg (255, 255) 0
         (map Z.of_nat (seq 1 len)).

(** X2 on an adapter that acknowledges: one attempt, status 0. *)
Lemma X2_witness :
  op unit plain_part 7 = Some tt /\
  fst (usbtiny_initialize echo_device 4 unit pgm_enable_bits 7 fresh
                          (mk_pgm false 0) plain_part [0; 0; 0; 0]) = 0.
Proof.
  split; [reflexivity | ].
  destruct (X2_initialize_retries_once echo_device 4 unit pgm_enable_bits 7
              fresh (mk_pgm false 0) plain_part [0; 0; 0; 0] tt eq_refl)
    as (_ & Hfirst & _).
  apply Hfirst. reflexivity.
Defined.

(** X3 on an adapter that acknowledges the erase. *)
Lemma X3_witness :
  (op unit plain_part 6 = Some tt /\ cache_disable warm <= 0) /\
  cache_mem (snd (usbtiny_chip_erase echo_device 4 unit pgm_enable_bits 6 7
                                     warm (mk_pgm false 0) plain_part
                                     [0; 0; 0; 0] [0; 0; 0; 0])) = None.
Proof.
  assert (Hen : cache_disable warm <= 0) by (cbn; lia).
  split; [split; [reflexivity | exact Hen] | ].
  destruct (X3_chip_erase_invalidates_cache echo_device 4 unit
              pgm_enable_bits 6 7 no_default_read warm (mk_pgm false 0)
              plain_part [0; 0; 0; 0] [0; 0; 0; 0] tt flash1k 5
              eq_refl Hen eq_refl)
    as (_ & _ & Hnone & _).
  exact Hnone.
Defined.

(** X4 with chunks of 128 bytes: address 300 has base 256. *)
Lemma X4_witness :
  chunk_size fresh = 2 ^ 7 /\
  base_of fresh 300 = chunk_size fresh * (300 / chunk_size fresh).
Proof.
  split; [reflexivity | ].
  destruct (X4_cache_base_is_chunk_aligned fresh 300 260 7) as (Hb & _);
    [lia | reflexivity | exact Hb].
Defined.

(** X5 on an adapter that sends 128 bytes of 165. *)
Lemma X5_witness :
  (cache_disable fresh <= 0 /\
   reply_n (full_device (trace fresh) (refill_msg fresh flash1k 5)) =
   refill_size fresh flash1k) /\
  usbtiny_read_byte full_device no_default_read
    (snd (usbtiny_read_byte full_device no_default_read fresh flash1k 5))
    flash1k 100 =
  (0, Some 165,
   snd (usbtiny_read_byte full_device no_default_read fresh flash1k 5)).
Proof.
  assert (Hen : cache_disable fresh <= 0) by (cbn; lia).
  assert (Hm : ~ cache_holds fresh flash1k 5)
    by (intros [H _]; discriminate H).
  split; [split; [exact Hen | reflexivity] | ].
  destruct (X5_cache_serves_the_refill full_device no_default_read fresh
              flash1k 5 100 Hen eq_refl Hm eq_refl)
    as (_ & Hhit).
  - apply Nat.eq_le_incl. reflexivity.
  - vm_compute. discriminate.
  - reflexivity.
  - vm_compute. split; [discriminate | reflexivity].
  - vm_compute. split; [discriminate | reflexivity].
  - exact Hhit.
Defined.

(** X6 on a load of 300 bytes in chunks of 128. *)
Lemma X6_witness :
  (0 <= 300 /\ 0 < chunk_size fresh) /\
  exists m' st' l,
    usbtiny_paged_load full_device 300 fresh flash1k 64 300 =
    Some (300, m', st') /\
    chunks is_read_exchange (trace st') =
    chunks is_read_exchange (trace fresh) ++ l /\
    tiles (chunk_size fresh) 0 l 300.
Proof.
  assert (H0 : 0 <= 300) by lia.
  assert (Hc : 0 < chunk_size fresh) by (cbn; lia).
  assert (Hf : (Z.to_nat 300 <= 300)%nat)
    by (apply Nat.eq_le_incl; reflexivity).
  split; [exact (conj H0 Hc) | ].
  destruct (X6_paged_load_chunks_tile_the_buffer full_device 300 fresh
              flash1k 64 300 H0 Hc Hf)
    as (m' & st' & l & Hrun & Hl & Ht & _).
  exists m', st', l. repeat split; assumption.
Defined.

(** X7 on a write of 300 bytes to a paged region with pages of 64. *)
Lemma X7_witness :
  (0 <= 300 /\ 0 < chunk_size fresh) /\
  exists st' l,
    usbtiny_paged_write full_device 300 fresh flash1k 64 300 =
    Some (300, st') /\
    chunks is_write_exchange (trace st') =
    chunks is_write_exchange (trace fresh) ++ l /\
    tiles 64 0 l 300.
Proof.
  assert (H0 : 0 <= 300) by lia.
  assert (Hc : 0 < chunk_size fresh) by (cbn; lia).
  assert (HP : 0 < 64) by lia.
  assert (Hf : (Z.to_nat 300 <= 300)%nat)
    by (apply Nat.eq_le_incl; reflexivity).
  split; [exact (conj H0 Hc) | ].
  destruct (X7_paged_write_chunks_tile_the_buffer full_device 300 fresh
              flash1k 64 300 H0 Hc (fun _ => HP) Hf)
    as (st' & l & Hrun & Hl & Ht & _).
  exists st', l. repeat split; assumption.
Defined.

(** X8 on 300 bytes in pages of 64: the pages 0 to 4. *)
Lemma X8_witness :
  (paged flash1k <> 0 /\ (Z.min (chunk_size fresh) 64 | 64)) /\
  exists st' lw,
    usbtiny_paged_write full_device 300 fresh flash1k 64 300 =
    Some (300, st') /\
    commits (trace st') = commits (trace fresh) ++ lw /\
    map (fun a => a / 64) lw = [0; 1; 2; 3; 4].
Proof.
  assert (H0 : 0 <= 300) by lia.
  assert (Hc : 0 < chunk_size fresh) by (cbn; lia).
  assert (Hp : paged flash1k <> 0) by (cbn; discriminate).
  assert (HP : 0 < 64) by lia.
  assert (Hd : (Z.min (chunk_size fresh) 64 | 64))
    by (exists 1; reflexivity).
  assert (Hf : (Z.to_nat 300 <= 300)%nat)
    by (apply Nat.eq_le_incl; reflexivity).
  split; [exact (conj Hp Hd) | ].
  destruct (X8_paged_write_commits_each_page_in_order full_device 300 fresh
              flash1k 64 300 H0 Hc Hp HP Hd Hf)
    as (st' & lw & lc & Hrun & Hlw & Hpg & _).
  exists st', lw. split; [exact Hrun | ]. split; [exact Hlw | exact Hpg].
Defined.

(** X9 on a write of 300 bytes of a counting buffer. *)
Lemma X9_witness :
  (0 <= 300 /\ 0 < chunk_size fresh) /\
  exists st',
    usbtiny_paged_write full_device 300 fresh (counting 1 "flash" 1 400)
                        64 300 = Some (300, st') /\
    payload is_write_exchange (trace st') =
    payload is_write_exchange (trace fresh)
    ++ firstn (Z.to_nat 300) (buf (counting 1 "flash" 1 400)).
Proof.
  assert (H0 : 0 <= 300) by lia.
  assert (Hc : 0 < chunk_size fresh) by (cbn; lia).
  assert (HP : 0 < 64) by lia.
  assert (Hf : (Z.to_nat 300 <= 300)%nat)
    by (apply Nat.eq_le_incl; reflexivity).
  split; [exact (conj H0 Hc) | ].
  exact (X9_paged_write_sends_the_buffer full_device 300 fresh
           (counting 1 "flash" 1 400) 64 300 H0 Hc (fun _ => HP) Hf).
Defined.

Lemma memory_device_serves (req : usb_request) (mem : list byte_t) :
  serves (memory_device mem) req mem.
Proof. intros tr msg _. split; reflexivity. Qed.

Lemma storing_device_stores (wreq rreq : usb_request) (init : list byte_t) :
  stores (storing_device wreq init) wreq rreq init.
Proof. intros tr msg _. split; reflexivity. Qed.

(** X10 on an adapter whose memory counts from 1. *)
Lemma X10_witness :
  serves (memory_device (map Z.of_nat (seq 1 400))) (read_req flash1k)
         (map Z.of_nat (seq 1 400)) /\
  exists m' st',
    usbtiny_paged_load (memory_device (map Z.of_nat (seq 1 400))) 300 fresh
                       flash1k 64 300 = Some (300, m', st') /\
    buf m' = firstn (Z.to_nat 300) (map Z.of_nat (seq 1 400))
             ++ skipn (Z.to_nat 300) (buf flash1k).
Proof.
  assert (Hs : serves (memory_device (map Z.of_nat (seq 1 400)))
                      (read_req flash1k) (map Z.of_nat (seq 1 400)))
    by apply memory_device_serves.
  assert (H0 : 0 <= 300) by lia.
  assert (Hc : 0 < chunk_size fresh) by (cbn; lia).
  assert (Hf : (Z.to_nat 300 <= 300)%nat)
    by (apply Nat.eq_le_incl; reflexivity).
  assert (Hm : 300 <= Z.of_nat (length (map Z.of_nat (seq 1 400))))
    by (rewrite length_map, length_seq; lia).
  assert (Hb : 300 <= Z.of_nat (length (buf flash1k)))
    by (cbn [flash1k region buf]; rewrite repeat_length; lia).
  split; [exact Hs | ].
  destruct (X10_paged_load_reads_the_adapter_memory
              (memory_device (map Z.of_nat (seq 1 400))) 300 fresh flash1k
              64 300 (map Z.of_nat (seq 1 400)) Hs H0 Hm Hb Hc Hf)
    as (m' & st' & Hrun & Hbuf & _).
  exists m', st'. split; [exact Hrun | exact Hbuf].
Defined.

(** X11: 300 counting bytes written and read back through an adapter that
    stores them. *)
Lemma X11_witness :
  stores (storing_device USBTINY_FLASH_WRITE (repeat 255 1024%nat))
         (write_req (counting 1 "flash" 1 400)) (read_req flash1k)
         (repeat 255 1024%nat) /\
  exists st1 m' st2,
    usbtiny_paged_write
      (storing_device USBTINY_FLASH_WRITE (repeat 255 1024%nat))
      300 fresh (counting 1 "flash" 1 400) 64 300 = Some (300, st1) /\
    usbtiny_paged_load
      (storing_device USBTINY_FLASH_WRITE (repeat 255 1024%nat))
      300 st1 flash1k 64 300 = Some (300, m', st2) /\
    firstn (Z.to_nat 300) (buf m') =
    firstn (Z.to_nat 300) (buf (counting 1 "flash" 1 400)).
Proof.
  assert (Hs : stores (storing_device USBTINY_FLASH_WRITE
                                      (repeat 255 1024%nat))
                      (write_req (counting 1 "flash" 1 400))
                      (read_req flash1k) (repeat 255 1024%nat))
    by apply (storing_device_stores USBTINY_FLASH_WRITE).
  assert (H0 : 0 <= 300) by lia.
  assert (Hc : 0 < chunk_size fresh) by (cbn; lia).
  assert (HP : 0 < 64) by lia.
  assert (Hf : (Z.to_nat 300 <= 300)%nat)
    by (apply Nat.eq_le_incl; reflexivity).
  assert (Hb : 300 <= Z.of_nat (length (buf (counting 1 "flash" 1 400))))
    by (cbn [counting buf]; rewrite length_map, length_seq; lia).
  assert (Hb0 : 300 <= Z.of_nat (length (buf flash1k)))
    by (cbn [flash1k region buf]; rewrite repeat_length; lia).
  assert (Hi : 300 <= Z.of_nat
                        (length (image (write_req (counting 1 "flash" 1 400))
                                       (repeat 255 1024%nat) (trace fresh))))
    by (cbn [fresh session trace image fold_left];
        rewrite repeat_length; lia).
  split; [exact Hs | ].
  destruct (X11_paged_write_then_load_round_trip
              (storing_device USBTINY_FLASH_WRITE (repeat 255 1024%nat))
              300 fresh (counting 1 "flash" 1 400) flash1k 64 300
              (repeat 255 1024%nat) Hs eq_refl H0 Hb Hb0 Hi Hc
              (fun _ => HP) Hf)
    as (st1 & m' & st2 & Hw & Hl & Hfirst & _).
  exists st1, m', st2. repeat split; assumption.
Defined.

(** X12 on the programming-enable command AC 53 00 00. *)
Lemma X12_witness :
  (0 <= 172 < 256 /\ 0 <= 83 < 256 /\ 0 <= 0 < 256) /\
  exists msg n,
    trace (snd (usbtiny_cmd full_device 4 fresh [172; 83; 0; 0]
                            [0; 0; 0; 0])) =
    trace fresh ++ [EvUsb msg n] /\
    msg_val msg = 172 + 256 * 83 /\ msg_index msg = 0 + 256 * 0.
Proof.
  assert (H1 : 0 <= 172 < 256) by lia.
  assert (H2 : 0 <= 83 < 256) by lia.
  assert (H3 : 0 <= 0 < 256) by lia.
  split; [exact (conj H1 (conj H2 H3)) | ].
  destruct (X12_command_bytes_reach_the_wire full_device 4 fresh 172 83 0 0
              [0; 0; 0; 0] H1 H2 H3 H3)
    as (msg & n & Htr & _ & _ & _ & Hv & Hi & _).
  exists msg, n. repeat split; assumption.
Defined.

(** X13 at the default period of 10 microseconds. *)
Lemma X13_witness :
  (SCK_MIN <= sck_period fresh <= SCK_MAX /\
   chunk_size fresh = chunk_size_loop CHUNK_SIZE (sck_period fresh)) /\
  chunk_size fresh * sck_period fresh <= 2160.
Proof.
  assert (Hs : SCK_MIN <= sck_period fresh <= SCK_MAX)
    by (cbn; unfold SCK_MIN, SCK_MAX; lia).
  assert (Hc : chunk_size fresh =
               chunk_size_loop CHUNK_SIZE (sck_period fresh))
    by reflexivity.
  assert (H0 : 0 <= 300) by lia.
  assert (Hf : (Z.to_nat 300 <= 300)%nat)
    by (apply Nat.eq_le_incl; reflexivity).
  split; [exact (conj Hs Hc) | ].
  exact (proj1 (X13_paged_load_transfers_stay_within_budget full_device 300
                  fresh flash1k 64 300 Hs Hc H0 Hf)).
Defined.

(** X14: a write of the (unpaged) eeprom region while the cache holds the
    first chunk of flash. *)
Lemma X14_witness :
  (cache_disable warm <= 0 /\ cache_holds warm flash1k 5 /\
   paged eeprom512 = 0) /\
  exists st1,
    usbtiny_paged_write full_device 300 warm eeprom512 64 300 =
    Some (300, st1) /\
    usbtiny_read_byte full_device no_default_read st1 flash1k 5 =
    (0, Some 7, st1).
Proof.
  assert (H0 : 0 <= 300) by lia.
  assert (Hc : 0 < chunk_size warm) by (cbn; lia).
  assert (Hf : (Z.to_nat 300 <= 300)%nat)
    by (apply Nat.eq_le_incl; reflexivity).
  assert (Hen : cache_disable warm <= 0) by (cbn; lia).
  assert (Hh : cache_holds warm flash1k 5) by (split; reflexivity).
  split; [exact (conj Hen (conj Hh eq_refl)) | ].
  destruct (X14_paged_operations_keep_the_cache full_device no_default_read
              300 warm eeprom512 flash1k 64 300 5 H0 Hc Hf Hen eq_refl Hh)
    as (_ & Hw).
  exact (Hw eq_refl).
Defined.
